(** * bam-utility-plugins: value predicates and the form validator

    A shallow embedding of the two source files of the repository

    - the predicate library ([isEmpty] and its helpers, [isTextIncludes],
      [isTextExcludes]), and
    - [validate.ts]: the five built-in validators, the module-level
      validator table and the [Validator] class,

    followed by the properties of the specification, each settled against
    the embedding.

    Conventions of the embedding.

    - A string is the list of its UTF-16 code units, as the language
      defines [length], [.] and [\s] on it.
    - A number is [NaN] or an integer.  The numbers this program handles
      are pixel counts, byte counts and length bounds; fractions and
      infinities are not represented.  An integer of magnitude [2^53] or
      more stands for the double of that value; how such a number
      prints, and what a pattern makes of it, is asked of the host.
    - A value is a tree of data: cyclic objects, functions and symbols
      are not represented.  An object is known by its own enumerable
      properties; one that is not plain converts to a string as the host
      says.  Objects that the program mutates and shares (the validator
      table, the [errors] mapping of an engine) live in an explicit store
      and are named by locations.
    - A property that an object does not have of its own is looked up in
      [Object.prototype], which belongs to the host.
    - An [async] function is a computation that may throw: a rejected
      promise and a thrown exception are the same outcome, and [await]
      is sequencing.  The source starts no two computations at once.
    - A JSON text is represented by its syntax tree. *)

From Stdlib Require Import ZArith NArith List String Ascii Bool Lia.
From stdpp Require Import gmap list.

Set Default Proof Using "Type".
Set Warnings "-register-all".
Local Open Scope N_scope.

(** ** Strings *)

Definition jsstring := list N.

(** Code points of a UTF-8 byte sequence (the encoding of this file). *)
Fixpoint utf8_decode (bs : list N) : list N :=
  match bs with
  | [] => []
  | b0 :: r0 =>
    if b0 <? 128 then b0 :: utf8_decode r0
    else if b0 <? 224 then
      match r0 with
      | b1 :: r1 =>
        N.lor (N.shiftl (N.land b0 31) 6) (N.land b1 63) :: utf8_decode r1
      | _ => []
      end
    else if b0 <? 240 then
      match r0 with
      | b1 :: b2 :: r2 =>
        N.lor (N.shiftl (N.land b0 15) 12)
          (N.lor (N.shiftl (N.land b1 63) 6) (N.land b2 63)) :: utf8_decode r2
      | _ => []
      end
    else
      match r0 with
      | b1 :: b2 :: b3 :: r3 =>
        N.lor (N.shiftl (N.land b0 7) 18)
          (N.lor (N.shiftl (N.land b1 63) 12)
             (N.lor (N.shiftl (N.land b2 63) 6) (N.land b3 63)))
          :: utf8_decode r3
      | _ => []
      end
  end.

(** UTF-16 code units of a code point. *)
Definition utf16_units (cp : N) : list N :=
  if cp <? 65536 then [cp]
  else
    let v := cp - 65536 in
    [55296 + N.shiftr v 10; 56320 + N.land v 1023].

(** A string literal of the source. *)
Definition js (s : string) : jsstring :=
  flat_map utf16_units (utf8_decode (map N_of_ascii (list_ascii_of_string s))).

Definition jsstring_eqb (a b : jsstring) : bool := bool_decide (a = b).

(** [String.prototype.split] with a one-unit separator. *)
Fixpoint split_on (sep : N) (s : jsstring) : list jsstring :=
  match s with
  | [] => [[]]
  | c :: s' =>
    if c =? sep then [] :: split_on sep s'
    else
      match split_on sep s' with
      | [] => [[c]]
      | w :: ws => (c :: w) :: ws
      end
  end.

(** [Array.prototype.join]. *)
Fixpoint join (sep : jsstring) (l : list jsstring) : jsstring :=
  match l with
  | [] => []
  | [x] => x
  | x :: l' => x ++ sep ++ join sep l'
  end.

(** ** Numbers *)

Inductive number : Type :=
| NaN
| Fin (z : Z).

Definition isNaN (n : number) : bool :=
  match n with NaN => true | Fin _ => false end.

(** [Boolean(n)]: [0] and [NaN] are falsy. *)
Definition number_truthy (n : number) : bool :=
  match n with NaN => false | Fin z => negb (z =? 0)%Z end.

(** [a < b] and [a > b]; every comparison with [NaN] is false. *)
Definition number_lt (a b : number) : bool :=
  match a, b with
  | Fin x, Fin y => (x <? y)%Z
  | _, _ => false
  end.

Definition number_gt (a b : number) : bool := number_lt b a.

Definition number_eqb (a b : number) : bool :=
  match a, b with
  | Fin x, Fin y => (x =? y)%Z
  | _, _ => false
  end.

(** The decimal digits of an integer, after its sign. *)
Fixpoint digits (d : Decimal.uint) : jsstring :=
  match d with
  | Decimal.Nil => []
  | Decimal.D0 d => 48 :: digits d
  | Decimal.D1 d => 49 :: digits d
  | Decimal.D2 d => 50 :: digits d
  | Decimal.D3 d => 51 :: digits d
  | Decimal.D4 d => 52 :: digits d
  | Decimal.D5 d => 53 :: digits d
  | Decimal.D6 d => 54 :: digits d
  | Decimal.D7 d => 55 :: digits d
  | Decimal.D8 d => 56 :: digits d
  | Decimal.D9 d => 57 :: digits d
  end.

Definition decimal (z : Z) : jsstring :=
  match z with
  | Z0 => [48]
  | Zpos p => digits (Pos.to_uint p)
  | Zneg p => 45 :: digits (Pos.to_uint p)
  end.

(** The integers that [String] prints digit by digit.  A larger one
    prints in the shortest form that reads back as the same double, with
    an exponent from [1e21] on. *)
Definition prints_plain (z : Z) : bool := (Z.abs z <? 2 ^ 53)%Z.

(** The numbers that every engine takes as the counts of a quantifier
    [{min,max}]; engines clamp or refuse larger ones. *)
Definition quantifier_count (z : Z) : bool :=
  ((0 <=? z) && (z <? 2147483647))%Z.

(** ** Regular expressions written in the source

    The patterns that the source spells out are embedded as syntax trees
    and run by an executable matcher (derivatives).  [And] is the
    intersection that a lookahead needs. *)

Record charset : Type := CSet {
  cs_ranges : list (N * N);
  cs_negated : bool
}.

Definition in_ranges (c : N) (rs : list (N * N)) : bool :=
  existsb (fun r => (fst r <=? c) && (c <=? snd r)) rs.

Definition in_charset (c : N) (cs : charset) : bool :=
  xorb (cs_negated cs) (in_ranges c (cs_ranges cs)).

Inductive regex : Type :=
| Void
| Eps
| Sym (cs : charset)
| Cat (r1 r2 : regex)
| Alt (r1 r2 : regex)
| Star (r : regex)
| And (r1 r2 : regex).

Fixpoint nullable (r : regex) : bool :=
  match r with
  | Void => false
  | Eps => true
  | Sym _ => false
  | Cat r1 r2 => nullable r1 && nullable r2
  | Alt r1 r2 => nullable r1 || nullable r2
  | Star _ => true
  | And r1 r2 => nullable r1 && nullable r2
  end.

Definition cat (r1 r2 : regex) : regex :=
  match r1, r2 with
  | Void, _ => Void
  | _, Void => Void
  | Eps, _ => r2
  | _, _ => Cat r1 r2
  end.

Definition alt (r1 r2 : regex) : regex :=
  match r1, r2 with
  | Void, _ => r2
  | _, Void => r1
  | _, _ => Alt r1 r2
  end.

Definition and (r1 r2 : regex) : regex :=
  match r1, r2 with
  | Void, _ => Void
  | _, Void => Void
  | _, _ => And r1 r2
  end.

Fixpoint deriv (c : N) (r : regex) : regex :=
  match r with
  | Void => Void
  | Eps => Void
  | Sym cs => if in_charset c cs then Eps else Void
  | Cat r1 r2 =>
    if nullable r1 then alt (cat (deriv c r1) r2) (deriv c r2)
    else cat (deriv c r1) r2
  | Alt r1 r2 => alt (deriv c r1) (deriv c r2)
  | Star r1 => cat (deriv c r1) (Star r1)
  | And r1 r2 => and (deriv c r1) (deriv c r2)
  end.

(** The whole of [s] matches [r]: the sense of [/^r$/.test(s)]. *)
Fixpoint matches (r : regex) (s : jsstring) : bool :=
  match s with
  | [] => nullable r
  | c :: s' => matches (deriv c r) s'
  end.

(** What a pattern denotes, against which the matcher is checked. *)
Inductive lang : regex -> jsstring -> Prop :=
| lang_Eps : lang Eps []
| lang_Sym cs c : in_charset c cs = true -> lang (Sym cs) [c]
| lang_Cat r1 r2 s1 s2 : lang r1 s1 -> lang r2 s2 -> lang (Cat r1 r2) (s1 ++ s2)
| lang_Alt_l r1 r2 s : lang r1 s -> lang (Alt r1 r2) s
| lang_Alt_r r1 r2 s : lang r2 s -> lang (Alt r1 r2) s
| lang_Star_nil r : lang (Star r) []
| lang_Star_app r s1 s2 : lang r s1 -> lang (Star r) s2 -> lang (Star r) (s1 ++ s2)
| lang_And r1 r2 s : lang r1 s -> lang r2 s -> lang (And r1 r2) s.

Definition one_of (cs : list N) : charset :=
  CSet (map (fun c => (c, c)) cs) false.

Definition chr (s : string) : regex := Sym (one_of (js s)).

Definition plus (r : regex) : regex := Cat r (Star r).

(** [r{n}] *)
Fixpoint times (n : nat) (r : regex) : regex :=
  match n with
  | O => Eps
  | S n' => Cat r (times n' r)
  end.

(** [r{0,n}] *)
Fixpoint upto (n : nat) (r : regex) : regex :=
  match n with
  | O => Eps
  | S n' => Alt Eps (Cat r (upto n' r))
  end.

(** [r{lo,hi}] for [lo <= hi] *)
Definition between (lo hi : nat) (r : regex) : regex :=
  Cat (times lo r) (upto (hi - lo) r).

Definition literal (s : jsstring) : regex :=
  fold_right (fun c r => Cat (Sym (one_of [c])) r) Eps s.

(** [\s]: white space and line terminators. *)
Definition cs_space : charset :=
  CSet [(9, 13); (32, 32); (160, 160); (5760, 5760); (8192, 8202);
        (8232, 8233); (8239, 8239); (8287, 8287); (12288, 12288);
        (65279, 65279)] false.

(** [\d] *)
Definition cs_digit : charset := CSet [(48, 57)] false.

(** [[a-zA-Z]] *)
Definition cs_letter : charset := CSet [(65, 90); (97, 122)] false.

(** [.] without the [s] flag: anything but a line terminator. *)
Definition cs_dot : charset :=
  CSet [(10, 10); (13, 13); (8232, 8233)] true.

(** Any code unit. *)
Definition cs_any : charset := CSet [] true.

(** [(?=a)r] at a position from which [r] runs to the end of the input:
    the rest of the input starts with a match of [a], and matches [r]. *)
Definition lookahead (a r : regex) : regex :=
  And (Cat a (Star (Sym cs_any))) r.

(** ** Values *)

Record Blob : Type := mkBlob {
  blob_size : N;
  blob_type : jsstring
}.

(** [VObject plain props] is an object other than an array or a [Blob],
    with its own enumerable properties in enumeration order; [plain]
    tells whether [value.constructor === Object]. *)
Inductive value : Type :=
| VUndefined
| VNull
| VBool (b : bool)
| VNumber (n : number)
| VString (s : jsstring)
| VArray (items : list value)
| VObject (plain : bool) (props : list (jsstring * value))
| VBlob (b : Blob).

Inductive type_tag : Type :=
| TUndefined | TObject | TBoolean | TNumber | TString.

Definition typeof (v : value) : type_tag :=
  match v with
  | VUndefined => TUndefined
  | VNull => TObject
  | VBool _ => TBoolean
  | VNumber _ => TNumber
  | VString _ => TString
  | VArray _ => TObject
  | VObject _ _ => TObject
  | VBlob _ => TObject
  end.

(** [Boolean(v)] *)
Definition truthy (v : value) : bool :=
  match v with
  | VUndefined => false
  | VNull => false
  | VBool b => b
  | VNumber n => number_truthy n
  | VString s => match s with [] => false | _ => true end
  | VArray _ => true
  | VObject _ _ => true
  | VBlob _ => true
  end.

(** [Object.hasOwn(obj, key)] *)
Definition has_key {A : Type} (key : jsstring) (obj : list (jsstring * A)) : bool :=
  existsb (fun p => jsstring_eqb (fst p) key) obj.

(** [typeof v === 'object'] and [v !== null]: an object. *)
Definition is_object (v : value) : bool :=
  match v with
  | VArray _ => true
  | VObject _ _ => true
  | VBlob _ => true
  | _ => false
  end.

(** [a === b] where [a] is a string or [undefined]. *)
Definition strict_equal_string (a : option jsstring) (v : value) : bool :=
  match a, v with
  | Some s, VString t => jsstring_eqb s t
  | None, VUndefined => true
  | _, _ => false
  end.

(** ** JSON *)

Inductive json : Type :=
| JNull
| JBool (b : bool)
| JNumber (z : Z)
| JString (s : jsstring)
| JArray (items : list json)
| JObject (members : list (jsstring * json)).

(** [JSON.stringify(v)]; [None] is the result [undefined].  A property
    whose value has no JSON form is left out of an object, and written
    [null] in an array. *)
Fixpoint JSON_stringify (v : value) : option json :=
  match v with
  | VUndefined => None
  | VNull => Some JNull
  | VBool b => Some (JBool b)
  | VNumber NaN => Some JNull
  | VNumber (Fin z) => Some (JNumber z)
  | VString s => Some (JString s)
  | VArray items =>
    Some (JArray (map (fun x => default JNull (JSON_stringify x)) items))
  | VObject _ props =>
    Some (JObject
            (omap (fun p =>
                     match JSON_stringify (snd p) with
                     | Some j => Some (fst p, j)
                     | None => None
                     end) props))
  | VBlob _ => Some (JObject [])
  end.

(** [text === '[]'] and [text === '{}'] *)
Definition is_empty_array_text (t : option json) : bool :=
  match t with Some (JArray []) => true | _ => false end.

Definition is_empty_object_text (t : option json) : bool :=
  match t with Some (JObject []) => true | _ => false end.

(** ** The predicate library *)

Definition isArray (v : value) : bool :=
  match v with VArray _ => true | _ => false end.

Definition isBlob (v : value) : bool :=
  match v with VBlob _ => true | _ => false end.

Definition constructor_is_Object (v : value) : bool :=
  match v with VObject plain _ => plain | _ => false end.

Definition isArrayEmpty (v : value) : bool :=
  match v with
  | VArray items =>
    is_empty_array_text (JSON_stringify (VArray (List.filter truthy items)))
  | _ => false
  end.

Definition isObjectEmpty (v : value) : bool :=
  match typeof v with
  | TObject =>
    match v with
    | VNull => false
    | _ => constructor_is_Object v && is_empty_object_text (JSON_stringify v)
    end
  | _ => false
  end.

Definition isBlobEmpty (v : value) : bool :=
  match v with
  | VBlob b => (blob_size b =? 0) || jsstring_eqb (blob_type b) []
  | _ => false
  end.

(** [/^\s*$/] *)
Definition blank_regex : regex := Star (Sym cs_space).

Definition isStringEmpty (v : value) : bool :=
  match v with
  | VString s => matches blank_regex s
  | _ => false
  end.

Definition isNumberEmpty (v : value) : bool :=
  match v with
  | VNumber n => isNaN n
  | _ => false
  end.

Definition isEmpty (v : value) : bool :=
  match v with
  | VUndefined => true
  | VNull => true
  | _ =>
    if isNumberEmpty v then true
    else if isStringEmpty v then true
    else if isArrayEmpty v then true
    else if isObjectEmpty v then true
    else if isBlobEmpty v then true
    else false
  end.

(** ** Outcomes and effects *)

Inductive exn : Type :=
| TypeError
| SyntaxError
| Rejected (reason : jsstring).

Inductive result (A : Type) : Type :=
| Return (a : A)
| Throw (e : exn).

Arguments Return {A} a.
Arguments Throw {A} e.

Record Image : Type := mkImage {
  naturalWidth : number;
  naturalHeight : number
}.

(** [string | string[] | null] *)
Inductive StringResult : Type :=
| RNull
| RString (s : jsstring)
| RList (l : list jsstring).

(** What the program consumes and does not define.

    - The pattern engine of the language, for patterns that arrive at
      run time ([RegExp] objects handed in by the caller, strings
      compiled by [new RegExp]); its [test] reads and writes the
      [lastIndex] of a global or sticky object.
    - The locale's lower-casing.
    - [Number_toString]: how an integer of magnitude [2^53] or more
      prints.
    - [instance_toString]: the string form of an object that is not
      plain, which its class decides (a [TypeError] when it has no
      conversion, as an object without prototype).
    - [Object_prototype]: what a plain object inherits under a name,
      seen as the source types every entry of the validator table, as a
      function of the value it is called with, without receiver.  A
      member that is not callable, or whose call throws, is one that
      throws; an answer that is falsy is [null].  The answers are those
      of the type that the source declares; a member that answers
      otherwise, as [constructor] does with an object, has no counterpart
      here.
    - The three image helpers of [./image]. *)
Class Host : Type := {
  RegExp : Type;
  RegExpState : Type;
  RegExp_new : jsstring -> RegExpState -> result RegExp * RegExpState;
  RegExp_test : RegExp -> jsstring -> RegExpState -> result bool * RegExpState;
  toLocaleLowerCase : jsstring -> jsstring;
  Number_toString : Z -> jsstring;
  instance_toString : list (jsstring * value) -> result jsstring;
  Object_prototype : jsstring -> option (value -> result StringResult);
  blobToBase64 : Blob -> result jsstring;
  urlToImageElement : jsstring -> result Image;
  transformFileSize : number -> number
}.

(** ** Conversion to a string *)

Section Conversions.
Context {host : Host}.

(** [String(n)], also what a template literal inserts. *)
Definition number_ToString (n : number) : jsstring :=
  match n with
  | NaN => js "NaN"
  | Fin z => if prints_plain z then decimal z else Number_toString z
  end.

(** The elements of an array converted from left to right, up to the
    first that throws. *)
Fixpoint all_results {A : Type} (l : list (result A)) : result (list A) :=
  match l with
  | [] => Return []
  | Return a :: rest =>
    match all_results rest with
    | Return l' => Return (a :: l')
    | Throw e => Throw e
    end
  | Throw e :: _ => Throw e
  end.

(** [String(v)].  A plain object converts through the [toString] it
    inherits, unless it has a property of that name of its own: that one
    is data, not a function, and so is what [valueOf] gives, which leaves
    the conversion with a [TypeError]. *)
Fixpoint ToString (v : value) : result jsstring :=
  match v with
  | VUndefined => Return (js "undefined")
  | VNull => Return (js "null")
  | VBool true => Return (js "true")
  | VBool false => Return (js "false")
  | VNumber n => Return (number_ToString n)
  | VString s => Return s
  | VArray items =>
    match all_results
            (map (fun x =>
                    match x with
                    | VUndefined => Return []
                    | VNull => Return []
                    | _ => ToString x
                    end) items) with
    | Return l => Return (join (js ",") l)
    | Throw e => Throw e
    end
  | VObject true props =>
    if has_key (js "toString") props then Throw TypeError
    else Return (js "[object Object]")
  | VObject false props => instance_toString props
  | VBlob _ => Return (js "[object Blob]")
  end.

End Conversions.

(** What a run leaves behind for an observer: the warnings and the calls
    to the image helpers, in order. *)
Inductive event : Type :=
| Warning (msg : jsstring)
| CallBlobToBase64 (b : Blob)
| CallUrlToImageElement (url : jsstring)
| CallTransformFileSize (n : number).

Section Effects.
Context {host : Host}.

Record world : Type := mkWorld {
  trace : list event;
  patterns : RegExpState
}.

Definition Eff (A : Type) : Type := world -> result A * world.

Definition ret {A : Type} (a : A) : Eff A := fun w => (Return a, w).

Definition throw {A : Type} (e : exn) : Eff A := fun w => (Throw e, w).

Definition bind {A B : Type} (m : Eff A) (k : A -> Eff B) : Eff B :=
  fun w =>
    match m w with
    | (Return a, w') => k a w'
    | (Throw e, w') => (Throw e, w')
    end.

Definition emit (e : event) : Eff unit :=
  fun w => (Return tt, mkWorld (trace w ++ [e]) (patterns w)).

Definition lift_result {A : Type} (r : result A) : Eff A :=
  fun w => (r, w).

(** Modelled from the spec: [handleWarningLog] of [./error], which
    "accepts a string, emits a non-fatal warning, returns nothing". *)
Definition handleWarningLog (msg : jsstring) : Eff unit :=
  emit (Warning msg).

Definition new_RegExp (source : jsstring) : Eff RegExp :=
  fun w =>
    let (r, p) := RegExp_new source (patterns w) in
    (r, mkWorld (trace w) p).

Definition test (reg : RegExp) (text : jsstring) : Eff bool :=
  fun w =>
    let (r, p) := RegExp_test reg text (patterns w) in
    (r, mkWorld (trace w) p).

End Effects.

Declare Scope eff_scope.
Delimit Scope eff_scope with eff.
Notation "'let*' x ':=' m 'in' k" := (bind m (fun x => k))
  (at level 10, x name, m at level 100, k at level 200) : eff_scope.
Notation "m ';;' k" := (bind m (fun _ => k))
  (at level 100, k at level 200, right associativity) : eff_scope.
Local Open Scope eff_scope.

(** ** Text predicates *)

Section Text.
Context {host : Host}.

(** An element of [Array<string | RegExp>]. *)
Inductive pattern : Type :=
| PRegExp (reg : RegExp)
| PString (s : jsstring).

Fixpoint isTextIncludes (data : list pattern) (text : jsstring) : Eff bool :=
  match data with
  | [] => ret false
  | PRegExp value :: rest =>
    let* hit := test value text in
    if hit then ret true else isTextIncludes rest text
  | PString value :: rest =>
    let* reg := new_RegExp value in
    let* hit := test reg text in
    if hit then ret true else isTextIncludes rest text
  end.

Fixpoint isTextExcludes (data : list pattern) (text : jsstring) : Eff bool :=
  match data with
  | [] => ret true
  | PRegExp value :: rest =>
    let* hit := test value text in
    if hit then ret false else isTextExcludes rest text
  | PString value :: rest =>
    let* reg := new_RegExp value in
    let* hit := test reg text in
    if hit then ret false else isTextExcludes rest text
  end.

End Text.

(** ** Validator options

    One record for the option payloads of all validators: the fields of
    [BaseValidateOption], [PasswordValidateOption], [{ equal }] and
    [ImageOption].  [None] is an absent ([undefined]) field. *)

Module MessageOption.
Record t : Type := make {
  minWidth : option jsstring;
  maxWidth : option jsstring;
  minHeight : option jsstring;
  maxHeight : option jsstring;
  size : option jsstring;
  type : option jsstring
}.
Definition empty : t := make None None None None None None.
End MessageOption.

(** [type] of [BlobOption]: a string, or something [Array.from] turns
    into a list of strings. *)
Inductive type_option : Type :=
| TypeString (s : jsstring)
| TypeList (l : list jsstring).

Module ValidateOption.
Record t : Type := make {
  message : option jsstring;
  messageOption : option MessageOption.t;
  min : option number;
  max : option number;
  equal : option jsstring;
  size : option number;
  type : option type_option;
  name : option jsstring;
  minWidth : option number;
  maxWidth : option number;
  minHeight : option number;
  maxHeight : option number
}.
(** [{}] *)
Definition empty : t :=
  make None None None None None None None None None None None None.
Definition set_min (m : option number) (o : t) : t :=
  make (message o) (messageOption o) m (max o) (equal o) (size o) (type o)
    (name o) (minWidth o) (maxWidth o) (minHeight o) (maxHeight o).
Definition set_max (m : option number) (o : t) : t :=
  make (message o) (messageOption o) (min o) m (equal o) (size o) (type o)
    (name o) (minWidth o) (maxWidth o) (minHeight o) (maxHeight o).
End ValidateOption.

(** [a || b] on strings and on numbers, [a] possibly absent. *)
Definition string_or (a : option jsstring) (b : jsstring) : jsstring :=
  match a with
  | Some (c :: s) => c :: s
  | _ => b
  end.

Definition number_or (a : option number) (b : number) : number :=
  match a with
  | Some n => if number_truthy n then n else b
  | None => b
  end.

Definition option_truthy (a : option number) : bool :=
  match a with
  | Some n => number_truthy n
  | None => false
  end.

(** ** The patterns of the validators *)

(** The negated class of the local part: anything but [<>()[]\.,;:@],
    the double quote and white space. *)
Definition cs_atom : charset :=
  CSet (map (fun c => (c, c)) (js "<>()[]\.,;:@" ++ [34]) ++ cs_ranges cs_space)
    true.

(** [[a-zA-Z\-0-9]] *)
Definition cs_label : charset := CSet [(97, 122); (65, 90); (45, 45); (48, 57)] false.

Definition email_local : regex :=
  Alt (Cat (plus (Sym cs_atom)) (Star (Cat (chr ".") (plus (Sym cs_atom)))))
      (Cat (Sym (one_of [34])) (Cat (plus (Sym cs_dot)) (Sym (one_of [34])))).

Definition octet : regex := between 1 3 (Sym cs_digit).

Definition email_domain : regex :=
  Alt (Cat (chr "[")
         (Cat octet (Cat (chr ".") (Cat octet (Cat (chr ".")
            (Cat octet (Cat (chr ".") (Cat octet (chr "]")))))))))
      (Cat (plus (Cat (plus (Sym cs_label)) (chr ".")))
         (Cat (times 2 (Sym cs_letter)) (Star (Sym cs_letter)))).

(** The pattern of [emailValidator], between [^] and [$]. *)
Definition email_regex : regex :=
  Cat email_local (Cat (chr "@") email_domain).

(** The password pattern [^(?=.*\d)(?=.*[a-zA-Z]).{lo,hi}$], between [^]
    and [$], for counts [lo <= hi]. *)
Definition password_tree (lo hi : nat) : regex :=
  lookahead (Cat (Star (Sym cs_dot)) (Sym cs_digit))
    (lookahead (Cat (Star (Sym cs_dot)) (Sym cs_letter))
       (between lo hi (Sym cs_dot))).

(** ** The built-in validators *)

Section Validators.
Context {host : Host}.

Definition ValidatorHandler : Type :=
  value -> option ValidateOption.t -> Eff StringResult.

Definition message_optionDefault : ValidateOption.t :=
  ValidateOption.make (Some []) None None None None None None None
    None None None None.

Definition isEmptyValidator : ValidatorHandler :=
  fun value option =>
    let opt := default message_optionDefault option in
    ret (if isEmpty value
         then RString (string_or (ValidateOption.message opt) (js "輸入資料不得為空"))
         else RNull).

Definition emailValidator : ValidatorHandler :=
  fun value option =>
    let opt := default message_optionDefault option in
    let* text := lift_result (ToString value) in
    let result := negb (matches email_regex text) in
    ret (if result
         then RString (string_or (ValidateOption.message opt)
                         (js "請輸入正確的電子郵件信箱格式"))
         else RNull).

Definition password_optionDefault : ValidateOption.t :=
  ValidateOption.make (Some []) None (Some (Fin 6)) (Some (Fin 30)) None None
    None None None None None None.

(** A pattern object: one whose pattern the embedding runs itself, or
    one of the host. *)
Inductive pattern_object : Type :=
| Embedded (r : regex)
| Hosted (reg : RegExp).

(** The text that the template of the password pattern gives. *)
Definition password_source (min max : number) : jsstring :=
  js "^(?=.*\d)(?=.*[a-zA-Z]).{" ++ number_ToString min ++ js ","
  ++ number_ToString max ++ js "}$".

(** [new RegExp(`^(?=.*\\d)(?=.*[a-zA-Z]).{${min},${max}}$`)].  When both
    numbers are counts of a quantifier the pattern is [password_tree], or
    a syntax error for [min > max]; any other text is compiled by the
    host. *)
Definition password_regex (min max : number) : Eff pattern_object :=
  match min, max with
  | Fin a, Fin b =>
    if quantifier_count a && quantifier_count b then
      if (a <=? b)%Z then ret (Embedded (password_tree (Z.to_nat a) (Z.to_nat b)))
      else throw SyntaxError
    else
      let* reg := new_RegExp (password_source min max) in
      ret (Hosted reg)
  | _, _ =>
    let* reg := new_RegExp (password_source min max) in
    ret (Hosted reg)
  end.

(** [reg.test(text)] *)
Definition test_pattern (reg : pattern_object) (text : jsstring) : Eff bool :=
  match reg with
  | Embedded r => ret (matches r text)
  | Hosted reg => test reg text
  end.

Definition passwordValidator : ValidatorHandler :=
  fun value option =>
    let opt := default password_optionDefault option in
    let min := number_or (ValidateOption.min opt)
                 (number_or (ValidateOption.min password_optionDefault) NaN) in
    let max := number_or (ValidateOption.max opt)
                 (number_or (ValidateOption.max password_optionDefault) NaN) in
    let* reg := password_regex min max in
    let* text := lift_result (ToString value) in
    let* hit := test_pattern reg text in
    let result := negb hit in
    ret (if result
         then RString (string_or (ValidateOption.message opt)
                         (js "密碼請輸入" ++ number_ToString min ++ js "~"
                          ++ number_ToString max ++ js "碼英數混合"))
         else RNull).

Definition equal_optionDefault : ValidateOption.t :=
  ValidateOption.make (Some []) None None None (Some []) None None None
    None None None None.

Definition equalValidator : ValidatorHandler :=
  fun value option =>
    let opt := default equal_optionDefault option in
    ret (if negb (strict_equal_string (ValidateOption.equal opt) value)
         then RString (string_or (ValidateOption.message opt) (js "輸入資料不相等"))
         else RNull).

Definition image_messageOption : MessageOption.t :=
  MessageOption.make
    (Some (js "圖片寬度大小低於限制"))
    (Some (js "圖片寬度大小超出限制"))
    (Some (js "圖片高度大小低於限制"))
    (Some (js "圖片高度大小超出限制"))
    (Some (js "檔案大小超出限制"))
    (Some (js "檔案類型錯誤")).

Definition image_optionDefault : ValidateOption.t :=
  ValidateOption.make (Some []) (Some image_messageOption) None None None
    (Some (Fin 0)) (Some (TypeString (js "image"))) None
    (Some (Fin 0)) (Some (Fin 0)) (Some (Fin 0)) (Some (Fin 0)).

(** [opt.messageOption?.field || fallback], the fallback being a field of
    [optionDefault.messageOption]. *)
Definition image_message (opt : ValidateOption.t)
    (field fallback : MessageOption.t -> option jsstring) : jsstring :=
  string_or
    (match ValidateOption.messageOption opt with
     | Some m => field m
     | None => None
     end)
    (string_or (fallback image_messageOption) []).

(** [bound && bound < x] and [bound && bound > x] *)
Definition set_and_lt (bound : option number) (x : number) : bool :=
  match bound with
  | Some n => number_truthy n && number_lt n x
  | None => false
  end.

Definition set_and_gt (bound : option number) (x : number) : bool :=
  match bound with
  | Some n => number_truthy n && number_gt n x
  | None => false
  end.

Definition push_if (c : bool) (msg : jsstring) (errors : list jsstring) :
    list jsstring :=
  if c then errors ++ [msg] else errors.

(** The four dimension checks, on the decoded image. *)
Definition image_dimensions (opt : ValidateOption.t) (img : Image)
    (errors : list jsstring) : list jsstring :=
  let errors :=
    push_if (set_and_lt (ValidateOption.minWidth opt) (naturalWidth img))
      (image_message opt MessageOption.minWidth MessageOption.maxWidth) errors in
  let errors :=
    push_if (set_and_gt (ValidateOption.maxWidth opt) (naturalWidth img))
      (image_message opt MessageOption.maxWidth MessageOption.minWidth) errors in
  let errors :=
    push_if (set_and_lt (ValidateOption.minHeight opt) (naturalHeight img))
      (image_message opt MessageOption.minHeight MessageOption.minHeight) errors in
  push_if (set_and_gt (ValidateOption.maxHeight opt) (naturalHeight img))
    (image_message opt MessageOption.maxHeight MessageOption.maxHeight) errors.

Definition type_truthy (t : option type_option) : bool :=
  match t with
  | Some (TypeString []) => false
  | Some _ => true
  | None => false
  end.

Definition allowedTypes (t : option type_option) : list jsstring :=
  match t with
  | Some (TypeString s) => split_on 44 s
  | Some (TypeList l) => l
  | None => []
  end.

Definition imageValidator : ValidatorHandler :=
  fun value option =>
    let opt := default image_optionDefault option in
    let errors : list jsstring := [] in
    let* errors :=
      match value with
      | VBlob blob =>
        let* errors :=
          if option_truthy (ValidateOption.minWidth opt)
             || option_truthy (ValidateOption.maxWidth opt)
             || option_truthy (ValidateOption.minHeight opt)
             || option_truthy (ValidateOption.maxHeight opt)
          then
            emit (CallBlobToBase64 blob);;
            let* base64Url := lift_result (blobToBase64 blob) in
            emit (CallUrlToImageElement base64Url);;
            let* img := lift_result (urlToImageElement base64Url) in
            ret (image_dimensions opt img errors)
          else ret errors in
        let* errors :=
          if option_truthy (ValidateOption.size opt) then
            let size := default NaN (ValidateOption.size opt) in
            emit (CallTransformFileSize size);;
            let sizeNumber := transformFileSize size in
            if isNaN sizeNumber then
              handleWarningLog
                (js "utils[function validImage]: The option property size is not valid variable.");;
              ret errors
            else
              ret (push_if (number_gt (Fin (Z.of_N (blob_size blob))) sizeNumber)
                     (image_message opt MessageOption.size MessageOption.size)
                     errors)
          else ret errors in
        if type_truthy (ValidateOption.type opt) then
          let types := map toLocaleLowerCase (allowedTypes (ValidateOption.type opt)) in
          let* isAllowed :=
            isTextIncludes (map PString types) (toLocaleLowerCase (blob_type blob)) in
          ret (push_if (negb isAllowed)
                 (image_message opt MessageOption.type MessageOption.type) errors)
        else ret errors
      | _ =>
        handleWarningLog (js "utils[function validImage]: The value is not Blob object.");;
        ret errors
      end in
    ret (match errors with [] => RNull | _ => RList errors end).

End Validators.

(** ** The store

    The objects that are shared and assigned to: validator tables,
    [errors] mappings, and the arrays of messages these refer to. *)

Definition loc : Type := positive.

(** A value of an [errors] mapping: [null] or an array. *)
Inductive entry : Type :=
| ENull
| ERef (l : loc).

(** ** The order of [for (key in obj)]

    The own properties whose names are array indices come first, in
    ascending order of the index, then the others in the order in which
    they were added. *)

Fixpoint digits_value (acc : N) (s : jsstring) : option N :=
  match s with
  | [] => Some acc
  | c :: s' =>
    if (48 <=? c) && (c <=? 57) then digits_value (acc * 10 + (c - 48)) s'
    else None
  end.

(** The array index that a name is: the decimal form, without leading
    zero, of an integer below [2^32 - 1]. *)
Definition array_index (name : jsstring) : option N :=
  match name with
  | [] => None
  | [48] => Some 0
  | 48 :: _ => None
  | _ =>
    match digits_value 0 name with
    | Some n => if n <? 4294967295 then Some n else None
    | None => None
    end
  end.

Fixpoint insert_index {A : Type} (i : N) (p : A) (l : list (N * A)) :
    list (N * A) :=
  match l with
  | [] => [(i, p)]
  | (j, q) :: rest =>
    if i <? j then (i, p) :: (j, q) :: rest
    else (j, q) :: insert_index i p rest
  end.

Definition indexed {A : Type} (obj : list (jsstring * A)) :
    list (N * (jsstring * A)) :=
  fold_left
    (fun acc p =>
       match array_index (fst p) with
       | Some i => insert_index i p acc
       | None => acc
       end) obj [].

Definition for_in_order {A : Type} (obj : list (jsstring * A)) :
    list (jsstring * A) :=
  map snd (indexed obj)
  ++ List.filter (fun p => match array_index (fst p) with
                           | Some _ => false
                           | None => true
                           end) obj.

Section Engine.
Context {host : Host}.

(** [ValidatorHandlerList]: the own properties of a table object. *)
Definition ValidatorHandlerList : Type := gmap jsstring ValidatorHandler.

Inductive cell : Type :=
| CTable (t : ValidatorHandlerList)
| CErrors (entries : list (jsstring * entry))
| CArray (items : list jsstring).

Definition store : Type := gmap loc cell.

(** The module-level [validatorHandler] object. *)
Definition validatorHandler_loc : loc := 1%positive.

Definition builtin_validators : ValidatorHandlerList :=
  list_to_map
    [(js "isEmpty", isEmptyValidator);
     (js "email", emailValidator);
     (js "password", passwordValidator);
     (js "equal", equalValidator);
     (js "image", imageValidator)].

(** The store once the module is loaded. *)
Definition module_store : store :=
  {[ validatorHandler_loc := CTable builtin_validators ]}.

(** [ValidateField]: validator name to option payload, as declared
    (the loop over it goes in [for_in_order]); and
    [ValidatorValidOption]: field name to field rule. *)
Definition ValidateField : Type := list (jsstring * option ValidateOption.t).

Definition ValidatorValidOption : Type := list (jsstring * ValidateField).

(** [ErrorMessages], the object that [validate] returns. *)
Definition ErrorMessages : Type := list (jsstring * option (list jsstring)).

Record Validator : Type := mkValidator {
  validatorHandler : loc;
  model : value;
  validateOption : option ValidatorValidOption;
  errors : loc
}.

(** [obj[key]] *)
Fixpoint lookup_key {A : Type} (key : jsstring) (obj : list (jsstring * A)) :
    option A :=
  match obj with
  | [] => None
  | (k, a) :: rest => if jsstring_eqb k key then Some a else lookup_key key rest
  end.

(** [obj[key] = a] *)
Fixpoint assign_key {A : Type} (key : jsstring) (a : A)
    (obj : list (jsstring * A)) : list (jsstring * A) :=
  match obj with
  | [] => [(key, a)]
  | (k, b) :: rest =>
    if jsstring_eqb k key then (k, a) :: rest
    else (k, b) :: assign_key key a rest
  end.

(** [new Validator(model, option)]: the table is the module's object, the
    [errors] mapping a new empty object. *)
Definition new_Validator (model : value) (option : option ValidatorValidOption)
    (σ : store) : Validator * store :=
  let l := fresh (dom σ) in
  (mkValidator validatorHandler_loc model option l, <[l := CErrors []]> σ).

Definition table_of (σ : store) (this : Validator) : ValidatorHandlerList :=
  match σ !! validatorHandler this with
  | Some (CTable t) => t
  | _ => ∅
  end.

Definition setValidatorHandler (this : Validator) (name : jsstring)
    (handler : ValidatorHandler) (σ : store) : store :=
  <[validatorHandler this := CTable (<[name := handler]> (table_of σ this))]> σ.

(** The property values of the option objects, as [isEmpty] sees them. *)
Definition value_of_string (s : option jsstring) : value :=
  match s with Some s => VString s | None => VUndefined end.

Definition value_of_number (n : option number) : value :=
  match n with Some n => VNumber n | None => VUndefined end.

Definition value_of_MessageOption (m : MessageOption.t) : value :=
  VObject true
    [(js "minWidth", value_of_string (MessageOption.minWidth m));
     (js "maxWidth", value_of_string (MessageOption.maxWidth m));
     (js "minHeight", value_of_string (MessageOption.minHeight m));
     (js "maxHeight", value_of_string (MessageOption.maxHeight m));
     (js "size", value_of_string (MessageOption.size m));
     (js "type", value_of_string (MessageOption.type m))].

Definition value_of_ValidateOption (o : option ValidateOption.t) : value :=
  match o with
  | None => VUndefined
  | Some o =>
    VObject true
      [(js "message", value_of_string (ValidateOption.message o));
       (js "messageOption",
        match ValidateOption.messageOption o with
        | Some m => value_of_MessageOption m
        | None => VUndefined
        end);
       (js "min", value_of_number (ValidateOption.min o));
       (js "max", value_of_number (ValidateOption.max o));
       (js "equal", value_of_string (ValidateOption.equal o));
       (js "size", value_of_number (ValidateOption.size o));
       (js "type",
        match ValidateOption.type o with
        | Some (TypeString s) => VString s
        | Some (TypeList l) => VArray (map VString l)
        | None => VUndefined
        end);
       (js "name", value_of_string (ValidateOption.name o));
       (js "minWidth", value_of_number (ValidateOption.minWidth o));
       (js "maxWidth", value_of_number (ValidateOption.maxWidth o));
       (js "minHeight", value_of_number (ValidateOption.minHeight o));
       (js "maxHeight", value_of_number (ValidateOption.maxHeight o))]
  end.

Definition value_of_ValidateField (f : ValidateField) : value :=
  VObject true (map (fun p => (fst p, value_of_ValidateOption (snd p))) f).

Definition value_of_rules (opt : option ValidatorValidOption) : value :=
  match opt with
  | None => VUndefined
  | Some rules =>
    VObject true (map (fun p => (fst p, value_of_ValidateField (snd p))) rules)
  end.

(** The own enumerable properties that [for (key in model)] visits and
    [hasOwnProperty] keeps. *)
Definition index_key (i : nat) : jsstring := decimal (Z.of_nat i).

Definition own_entries (model : value) : list (jsstring * value) :=
  match model with
  | VObject _ props => props
  | VArray items => imap (fun i x => (index_key i, x)) items
  | VString s => imap (fun i c => (index_key i, VString [c])) s
  | _ => []
  end.

(** What one validator's answer adds to the running list. *)
Definition push_messages (errorMessages : StringResult)
    (errors : list jsstring) : list jsstring :=
  match errorMessages with
  | RNull => errors
  | RString [] => errors
  | RString s => errors ++ [s]
  | RList l => errors ++ l
  end.

Definition nonempty (s : jsstring) : bool :=
  match s with [] => false | _ => true end.

(** A member of [Object.prototype] called as a validator. *)
Definition inherited_handler (member : value -> result StringResult) :
    ValidatorHandler :=
  fun value _ => lift_result (member value).

(** [this.validatorHandler[type]]: the table's own entry, or else what it
    inherits from [Object.prototype]; [None] is [undefined]. *)
Definition lookup_handler (table : ValidatorHandlerList) (type : jsstring) :
    option ValidatorHandler :=
  match (table !! type : option ValidatorHandler) with
  | Some handler => Some handler
  | None =>
    match Object_prototype type with
    | Some member => Some (inherited_handler member)
    | None => None
    end
  end.

(** The loop of [validateField] over the names as [for (type in options)]
    gives them; calling [undefined] is a [TypeError]. *)
Fixpoint validateField_loop (table : ValidatorHandlerList) (value : value)
    (options : ValidateField) (errors : list jsstring) : Eff (list jsstring) :=
  match options with
  | [] => ret errors
  | (type, typeOption) :: rest =>
    match lookup_handler table type with
    | None => throw TypeError
    | Some handler =>
      let* errorMessages := handler value typeOption in
      validateField_loop table value rest (push_messages errorMessages errors)
    end
  end.

Definition validateField (this : Validator) (value : value)
    (options : option ValidateField) (σ : store) :
    Eff (option (list jsstring)) :=
  let errors : list jsstring := [] in
  let* errors :=
    match options with
    | Some options =>
      validateField_loop (table_of σ this) value (for_in_order options) errors
    | None =>
      handleWarningLog
        (js "utils[function validateField]: The options type is not a ValidateField.");;
      ret errors
    end in
  let result := List.filter nonempty errors in
  ret (match result with [] => None | _ => Some result end).

(** [opt[key]]: the rule that the rule set has of its own under the
    name, or else the member of [Object.prototype] of that name, an
    object that [for (type in options)] finds nothing in; [None] is
    [undefined]. *)
Definition lookup_rule (key : jsstring) (opt : ValidatorValidOption) :
    option ValidateField :=
  match lookup_key key opt with
  | Some rule => Some rule
  | None =>
    match Object_prototype key with
    | Some _ => Some []
    | None => None
    end
  end.

(** Assigning to the name [__proto__], where [Object.prototype] has that
    accessor, sets the prototype of the object and adds no property. *)
Definition sets_prototype (key : jsstring) : bool :=
  jsstring_eqb key (js "__proto__")
  && match Object_prototype (js "__proto__") with
     | Some _ => true
     | None => false
     end.

(** [errors[key] = r] *)
Definition assign_result (key : jsstring) (r : option (list jsstring))
    (errors : ErrorMessages) : ErrorMessages :=
  if sets_prototype key then errors else assign_key key r errors.

(** The loop of [validate] over the fields of the model. *)
Fixpoint validate_loop (this : Validator) (σ : store)
    (opt : ValidatorValidOption) (fields : list (jsstring * value))
    (errors : ErrorMessages) : Eff ErrorMessages :=
  match fields with
  | [] => ret errors
  | (key, v) :: rest =>
    match lookup_rule key opt with
    | Some validateField_ =>
      let* r := validateField this v (Some validateField_) σ in
      validate_loop this σ opt rest (assign_result key r errors)
    | None => validate_loop this σ opt rest errors
    end
  end.

(** [validate] assigns to no object of the store: its [errors] is a new
    local object, handed to the caller. *)
Definition validate (this : Validator) (options : option ValidatorValidOption)
    (σ : store) : Eff ErrorMessages :=
  (if isEmpty (model this)
   then handleWarningLog (js "utils[function validate]: The form property is all empty.")
   else ret tt);;
  let opt := match options with Some o => Some o | None => validateOption this end in
  (if isEmpty (value_of_rules opt)
   then handleWarningLog (js "utils[function validate]: The options property is all empty.")
   else ret tt);;
  let errors : ErrorMessages := [] in
  match opt with
  | Some opt => validate_loop this σ opt (own_entries (model this)) errors
  | None => ret errors
  end.

(** The mapping object at a location, and the [errors] mapping of an
    engine. *)
Definition mapping_at (σ : store) (l : loc) : list (jsstring * entry) :=
  match σ !! l with
  | Some (CErrors es) => es
  | _ => []
  end.

Definition errors_of (σ : store) (this : Validator) : list (jsstring * entry) :=
  mapping_at σ (errors this).

Definition array_at (σ : store) (l : loc) : option (list jsstring) :=
  match σ !! l with
  | Some (CArray items) => Some items
  | _ => None
  end.

(** The value that an entry denotes in a store. *)
Definition entry_value (σ : store) (e : entry) : value :=
  match e with
  | ENull => VNull
  | ERef l =>
    match array_at σ l with
    | Some items => VArray (map VString items)
    | None => VUndefined
    end
  end.

(** What [flat] makes of an entry: the strings of its array, or the
    entry itself when it is no array ([None]: [null], or [undefined] for
    an array that the store does not have). *)
Definition entry_items (σ : store) (e : entry) : list (option jsstring) :=
  match e with
  | ENull => [None]
  | ERef l =>
    match array_at σ l with
    | Some items => map Some items
    | None => [None]
    end
  end.

(** [Object.values(this.errors).flat().filter(p => p).map(String)]: the
    filter keeps the non-empty strings, which [String] leaves as they
    are. *)
Definition errorsToArray (this : Validator) (σ : store) : list jsstring :=
  flat_map (fun p => match p with
                     | Some (c :: s) => [c :: s]
                     | _ => []
                     end)
    (flat_map (fun p => entry_items σ (snd p)) (errors_of σ this)).

Definition isValid (this : Validator) (field : option jsstring) (σ : store) : bool :=
  match field with
  | Some (c :: s) =>
    match lookup_key (c :: s) (errors_of σ this) with
    | Some fieldError =>
      match entry_value σ fieldError with
      | VArray items => negb (length items =? 0)%nat
      | _ => false
      end
    | None => false
    end
  | _ => negb (length (errorsToArray this σ) =? 0)%nat
  end.

(** The object graph under a mapping, as a value: what [JSON.stringify]
    walks. *)
Definition mapping_value (σ : store) (l : loc) : value :=
  VObject true (map (fun p => (fst p, entry_value σ (snd p))) (mapping_at σ l)).

(** [JSON.parse] of the text of an errors mapping: every array and the
    object itself are new objects of the store.  [None]: the text is not
    that of a mapping from names to [null] or arrays of strings. *)
Fixpoint strings_of (items : list json) : option (list jsstring) :=
  match items with
  | [] => Some []
  | JString s :: rest =>
    match strings_of rest with
    | Some l => Some (s :: l)
    | None => None
    end
  | _ => None
  end.

Definition parse_entry (j : json) (σ : store) : option (entry * store) :=
  match j with
  | JNull => Some (ENull, σ)
  | JArray items =>
    match strings_of items with
    | Some l =>
      let a := fresh (dom σ) in
      Some (ERef a, <[a := CArray l]> σ)
    | None => None
    end
  | _ => None
  end.

Fixpoint parse_members (ms : list (jsstring * json)) (σ : store) :
    option (list (jsstring * entry) * store) :=
  match ms with
  | [] => Some ([], σ)
  | (k, j) :: rest =>
    match parse_entry j σ with
    | Some (e, σ1) =>
      match parse_members rest σ1 with
      | Some (es, σ2) => Some ((k, e) :: es, σ2)
      | None => None
      end
    | None => None
    end
  end.

Definition JSON_parse (text : json) (σ : store) : option (loc * store) :=
  match text with
  | JObject ms =>
    match parse_members ms σ with
    | Some (es, σ') =>
      let l := fresh (dom σ') in
      Some (l, <[l := CErrors es]> σ')
    | None => None
    end
  | _ => None
  end.

(** [JSON.parse(JSON.stringify(this.errors))] *)
Definition getErrors (this : Validator) (σ : store) : option (loc * store) :=
  match JSON_stringify (mapping_value σ (errors this)) with
  | Some text => JSON_parse text σ
  | None => None
  end.

(** The cells that make up the mapping at [l]: the object and its
    arrays. *)
Definition entry_cells (e : entry) : list loc :=
  match e with
  | ENull => []
  | ERef a => [a]
  end.

Definition mapping_cells (σ : store) (l : loc) : list loc :=
  l :: flat_map (fun p => entry_cells (snd p)) (mapping_at σ l).

(** The messages that an entry of a mapping holds: the non-empty strings
    of its array. *)
Definition entry_messages (σ : store) (e : entry) : list jsstring :=
  match e with
  | ENull => []
  | ERef a =>
    match array_at σ a with
    | Some items => List.filter nonempty items
    | None => []
    end
  end.

(** The rule set that [validate] works with: its argument, or else the
    one given to the constructor. *)
Definition rules_in_force (this : Validator)
    (options : option ValidatorValidOption) : option ValidatorValidOption :=
  match options with
  | Some o => Some o
  | None => validateOption this
  end.

(** A mapping whose object and arrays are all in the store. *)
Definition entry_closed (σ : store) (e : entry) : Prop :=
  match e with
  | ENull => True
  | ERef a => exists items, σ !! a = Some (CArray items)
  end.

Definition mapping_closed (σ : store) (l : loc) : Prop :=
  (exists es, σ !! l = Some (CErrors es)) /\
  Forall (fun p => entry_closed σ (snd p)) (mapping_at σ l).





End Engine.

(** ** A host to run examples on

    Its pattern engine compiles the patterns made of letters, digits,
    [-] and [/] only, as a search for that text, and keeps no state; it
    lower-cases ASCII; it prints every integer digit by digit (the
    examples hold none of magnitude [2^53] or more) and every object that
    is not plain as a plain one; its [Object.prototype] is
    [standard_prototype]; every data URL decodes to the image [img]; a
    size descriptor is its own byte count. *)

Definition ascii_lower (s : jsstring) : jsstring :=
  map (fun c => if (65 <=? c) && (c <=? 90) then c + 32 else c) s.

Definition plain_pattern (s : jsstring) : bool :=
  forallb (fun c => in_charset c cs_label || (c =? 47)) s.

Definition search (r : regex) : regex :=
  Cat (Star (Sym cs_any)) (Cat r (Star (Sym cs_any))).

(** Equality of names, by recursion on the two strings. *)
Fixpoint same_name (a b : jsstring) : bool :=
  match a, b with
  | [], [] => true
  | x :: a', y :: b' => (x =? y) && same_name a' b'
  | _, _ => false
  end.

(** The members of [Object.prototype] of the language, called with a
    value and without receiver: [toString] answers for [undefined];
    [isPrototypeOf] answers false for a value that is no object, and
    otherwise throws, as the others do, for want of a receiver or, for
    the accessor [__proto__], of a function.  [constructor], whose answer
    is an object and not that of a validator, is left out. *)
Definition standard_prototype (name : jsstring) :
    option (value -> result StringResult) :=
  if same_name name (js "toString")
  then Some (fun _ => Return (RString (js "[object Undefined]")))
  else if same_name name (js "isPrototypeOf")
  then Some (fun v => if is_object v then Throw TypeError else Return RNull)
  else if existsb (same_name name)
            [js "toLocaleString"; js "valueOf"; js "hasOwnProperty";
             js "propertyIsEnumerable"; js "__proto__";
             js "__defineGetter__"; js "__defineSetter__";
             js "__lookupGetter__"; js "__lookupSetter__"]
  then Some (fun _ => Throw TypeError)
  else None.

Definition example_host (img : Image) : Host := {|
  RegExp := regex;
  RegExpState := unit;
  RegExp_new := fun source st =>
    (if plain_pattern source then Return (search (literal source))
     else Throw SyntaxError, st);
  RegExp_test := fun reg text st => (Return (matches reg text), st);
  toLocaleLowerCase := ascii_lower;
  Number_toString := decimal;
  instance_toString := fun _ => Return (js "[object Object]");
  Object_prototype := standard_prototype;
  blobToBase64 := fun b => Return (js "data:" ++ blob_type b ++ js ";base64,");
  urlToImageElement := fun _ => Return img;
  transformFileSize := fun n => n
|}.

Definition example_world (img : Image) : @world (example_host img) :=
  @mkWorld (example_host img) [] tt.

(** A host like [example_host] whose image decoder rejects every URL. *)
Definition undecodable_host : Host := {|
  RegExp := regex;
  RegExpState := unit;
  RegExp_new := fun source st =>
    (if plain_pattern source then Return (search (literal source))
     else Throw SyntaxError, st);
  RegExp_test := fun reg text st => (Return (matches reg text), st);
  toLocaleLowerCase := ascii_lower;
  Number_toString := decimal;
  instance_toString := fun _ => Return (js "[object Object]");
  Object_prototype := standard_prototype;
  blobToBase64 := fun b => Return (js "data:" ++ blob_type b ++ js ";base64,");
  urlToImageElement := fun _ => Throw (Rejected (js "decode"));
  transformFileSize := fun n => n
|}.

(** The example of the specification: a model with a malformed e-mail
    address and a well-formed password, on a host whose images are 100
    by 100. *)
Definition demo : Host := example_host (mkImage (Fin 100) (Fin 100)).

Definition demo_world : @world demo := @mkWorld demo [] tt.

Definition demo_model : value :=
  VObject true
    [(js "email", VString (js "bad")); (js "pass", VString (js "abc123"))].

Definition demo_rules : @ValidatorValidOption :=
  [(js "email", [(js "email", Some ValidateOption.empty)]);
   (js "pass", [(js "password", Some ValidateOption.empty)])].

Definition demo_engine : Validator * @store demo :=
  @new_Validator demo demo_model (Some demo_rules) (@module_store demo).

(** A second engine, built after the first. *)
Definition demo_engine2 : Validator * @store demo :=
  @new_Validator demo demo_model (Some demo_rules) (snd demo_engine).

(** A store in which a caller has written the public [errors] object of
    an engine: [{ '': [], a: ['x'] }]. *)
Definition written_engine : Validator * @store demo :=
  (mkValidator validatorHandler_loc VNull None 2%positive,
   <[2%positive := CErrors [([], ERef 4%positive); (js "a", ERef 3%positive)]]>
     (<[3%positive := CArray [js "x"]]>
        (<[4%positive := CArray []]> (@module_store demo)))).

(** ** The characterisation of emptiness in the specification

    [spec_isEmpty] follows the sentence of the specification, clause by
    clause; the clause for plain objects is a parameter, so that the
    sentence as written and the sentence as the code has it differ in
    that clause alone. *)

Definition whitespace_only (s : jsstring) : Prop :=
  Forall (fun c => in_charset c cs_space = true) s.

Definition no_own_keys (props : list (jsstring * value)) : Prop :=
  props = [].

Definition no_serialised_property (props : list (jsstring * value)) : Prop :=
  forall k x, In (k, x) props -> x = VUndefined.

Definition spec_isEmpty (empty_object : list (jsstring * value) -> Prop)
    (v : value) : Prop :=
  v = VUndefined \/ v = VNull \/ v = VNumber NaN
  \/ (exists s, v = VString s /\ whitespace_only s)
  \/ (exists items, v = VArray items /\ List.filter truthy items = [])
  \/ (exists props, v = VObject true props /\ empty_object props)
  \/ (exists b, v = VBlob b /\ (blob_size b = 0 \/ blob_type b = [])).

(** ** What the password pattern asks of a string

    Between [lo] and [hi] code units, none of them a line terminator, at
    least one digit and at least one letter of the ASCII alphabet. *)
Definition password_ok (lo hi : Z) (s : jsstring) : Prop :=
  (lo <= Z.of_nat (length s) <= hi)%Z
  /\ Forall (fun c => in_charset c cs_dot = true) s
  /\ Exists (fun c => in_charset c cs_digit = true) s
  /\ Exists (fun c => in_charset c cs_letter = true) s.

(** ** An option that sets no dimension bound

    Each of the four bounds is absent, [0] or [NaN]: the guard of the
    dimension checks of the image validator is false. *)
Definition dimensions_unset (o : ValidateOption.t) : Prop :=
  option_truthy (ValidateOption.minWidth o) = false
  /\ option_truthy (ValidateOption.maxWidth o) = false
  /\ option_truthy (ValidateOption.minHeight o) = false
  /\ option_truthy (ValidateOption.maxHeight o) = false.

(** ** The contract of a validator's answer

    [null], a non-empty string, or a non-empty list of non-empty
    strings. *)
Definition answer_ok (r : StringResult) : Prop :=
  match r with
  | RNull => True
  | RString s => s <> []
  | RList l => l <> [] /\ Forall (fun s => s <> []) l
  end.

(** * Properties *)

(** ** The matcher is sound and complete for [lang] *)

Lemma lang_Void (s : jsstring) : ~ lang Void s.
Proof. intros H. inversion H. Qed.

Lemma lang_Eps_inv (s : jsstring) : lang Eps s -> s = [].
Proof. intros H. inversion H. reflexivity. Qed.

Lemma lang_Cat_inv (r1 r2 : regex) (s : jsstring) :
  lang (Cat r1 r2) s -> exists s1 s2, s = s1 ++ s2 /\ lang r1 s1 /\ lang r2 s2.
Proof. intros H. inversion H; subst. eauto. Qed.

Lemma lang_Alt_inv (r1 r2 : regex) (s : jsstring) :
  lang (Alt r1 r2) s -> lang r1 s \/ lang r2 s.
Proof. intros H. inversion H; subst; auto. Qed.

Lemma lang_And_inv (r1 r2 : regex) (s : jsstring) :
  lang (And r1 r2) s -> lang r1 s /\ lang r2 s.
Proof. intros H. inversion H; subst; auto. Qed.

Lemma cat_lang (r1 r2 : regex) (s : jsstring) :
  lang (cat r1 r2) s <-> lang (Cat r1 r2) s.
Proof.
  split.
  - intros H. destruct r1, r2; cbn in H;
      try (exfalso; exact (lang_Void _ H)); try exact H;
      exact (lang_Cat _ _ [] s lang_Eps H).
  - intros H. destruct (lang_Cat_inv _ _ _ H) as (s1 & s2 & -> & H1 & H2).
    destruct r1, r2; cbn;
      try (exfalso; exact (lang_Void _ H1)); try (exfalso; exact (lang_Void _ H2));
      try exact H; rewrite (lang_Eps_inv _ H1); exact H2.
Qed.

Lemma alt_lang (r1 r2 : regex) (s : jsstring) :
  lang (alt r1 r2) s <-> lang (Alt r1 r2) s.
Proof.
  split.
  - intros H. destruct r1, r2; cbn in H;
      try exact H; try (apply lang_Alt_r; exact H); apply lang_Alt_l; exact H.
  - intros H. destruct (lang_Alt_inv _ _ _ H) as [H1|H2].
    + destruct r1, r2; cbn; try exact H; try exact H1;
        exfalso; exact (lang_Void _ H1).
    + destruct r1, r2; cbn; try exact H; try exact H2;
        exfalso; exact (lang_Void _ H2).
Qed.

Lemma and_lang (r1 r2 : regex) (s : jsstring) :
  lang (and r1 r2) s <-> lang (And r1 r2) s.
Proof.
  split.
  - intros H. destruct r1, r2; cbn in H;
      try exact H; exfalso; exact (lang_Void _ H).
  - intros H. destruct (lang_And_inv _ _ _ H) as [H1 H2].
    destruct r1, r2; cbn; try exact H;
      try (exfalso; exact (lang_Void _ H1)); exfalso; exact (lang_Void _ H2).
Qed.

Lemma nullable_lang (r : regex) : nullable r = true <-> lang r [].
Proof.
  induction r as [| |cs|r1 IH1 r2 IH2|r1 IH1 r2 IH2|r IH|r1 IH1 r2 IH2]; cbn [nullable].
  - split; [discriminate | intros H; destruct (lang_Void _ H)].
  - split; [intros _; constructor | reflexivity].
  - split; [discriminate | intros H; inversion H].
  - rewrite andb_true_iff, IH1, IH2. split.
    + intros [H1 H2]. exact (lang_Cat _ _ [] [] H1 H2).
    + intros H. destruct (lang_Cat_inv _ _ _ H) as (s1 & s2 & E & H1 & H2).
      symmetry in E. apply app_eq_nil in E. destruct E as [-> ->]. auto.
  - rewrite orb_true_iff, IH1, IH2. split.
    + intros [H|H]; [apply lang_Alt_l | apply lang_Alt_r]; exact H.
    + apply lang_Alt_inv.
  - split; [intros _; constructor | reflexivity].
  - rewrite andb_true_iff, IH1, IH2. split.
    + intros [H1 H2]. constructor; assumption.
    + apply lang_And_inv.
Qed.

(** A non-empty word of a star starts with a non-empty word of the
    body. *)
Lemma lang_Star_cons (r : regex) (c : N) (s : jsstring) :
  lang (Star r) (c :: s) ->
  exists s1 s2, s = s1 ++ s2 /\ lang r (c :: s1) /\ lang (Star r) s2.
Proof.
  intros H. remember (Star r) as r' eqn:Er. remember (c :: s) as t eqn:Et.
  revert c s Et.
  induction H as [| | | | | |r0 s1 s2 H1 _ H2 IH2|]; try discriminate Er.
  - intros c s Et. discriminate Et.
  - injection Er as ->. intros c s Et. destruct s1 as [|c1 s1].
    + cbn in Et. exact (IH2 eq_refl c s Et).
    + cbn in Et. injection Et as <- <-. exists s1, s2. auto.
Qed.

Lemma deriv_lang (r : regex) (c : N) (s : jsstring) :
  lang (deriv c r) s <-> lang r (c :: s).
Proof.
  revert s.
  induction r as [| |cs|r1 IH1 r2 IH2|r1 IH1 r2 IH2|r IH|r1 IH1 r2 IH2];
    intros s; cbn [deriv].
  - split; intros H; inversion H.
  - split; intros H; inversion H.
  - destruct (in_charset c cs) eqn:E; split; intros H.
    + rewrite (lang_Eps_inv _ H). constructor. exact E.
    + inversion H; subst. constructor.
    + destruct (lang_Void _ H).
    + inversion H; subst. congruence.
  - assert (Hcat : lang (cat (deriv c r1) r2) s <->
                   exists s1 s2, s = s1 ++ s2 /\ lang r1 (c :: s1) /\ lang r2 s2).
    { rewrite cat_lang. split.
      - intros H. destruct (lang_Cat_inv _ _ _ H) as (s1 & s2 & -> & H1 & H2).
        exists s1, s2. rewrite <- IH1. auto.
      - intros (s1 & s2 & -> & H1 & H2). constructor; [apply IH1; exact H1 | exact H2]. }
    destruct (nullable r1) eqn:En.
    + rewrite alt_lang. split.
      * intros H. destruct (lang_Alt_inv _ _ _ H) as [H1|H2].
        -- apply Hcat in H1. destruct H1 as (s1 & s2 & -> & H1 & H2).
           exact (lang_Cat _ _ (c :: s1) s2 H1 H2).
        -- apply IH2 in H2. apply nullable_lang in En.
           exact (lang_Cat _ _ [] (c :: s) En H2).
      * intros H. destruct (lang_Cat_inv _ _ _ H) as (s1 & s2 & E & H1 & H2).
        destruct s1 as [|c1 s1].
        -- cbn in E. subst s2. apply lang_Alt_r, IH2. exact H2.
        -- cbn in E. injection E as <- ->. apply lang_Alt_l, Hcat. eauto.
    + rewrite Hcat. split.
      * intros (s1 & s2 & -> & H1 & H2). exact (lang_Cat _ _ (c :: s1) s2 H1 H2).
      * intros H. destruct (lang_Cat_inv _ _ _ H) as (s1 & s2 & E & H1 & H2).
        destruct s1 as [|c1 s1].
        -- apply nullable_lang in H1. congruence.
        -- cbn in E. injection E as <- ->. eauto.
  - rewrite alt_lang. split.
    + intros H. destruct (lang_Alt_inv _ _ _ H) as [H1|H2];
        [apply lang_Alt_l, IH1 | apply lang_Alt_r, IH2]; assumption.
    + intros H. destruct (lang_Alt_inv _ _ _ H) as [H1|H2];
        [apply lang_Alt_l, IH1 | apply lang_Alt_r, IH2]; assumption.
  - rewrite cat_lang. split.
    + intros H. destruct (lang_Cat_inv _ _ _ H) as (s1 & s2 & -> & H1 & H2).
      apply IH in H1. exact (lang_Star_app _ (c :: s1) s2 H1 H2).
    + intros H. destruct (lang_Star_cons _ _ _ H) as (s1 & s2 & -> & H1 & H2).
      constructor; [apply IH; exact H1 | exact H2].
  - rewrite and_lang. split.
    + intros H. destruct (lang_And_inv _ _ _ H) as [H1 H2].
      constructor; [apply IH1 | apply IH2]; assumption.
    + intros H. destruct (lang_And_inv _ _ _ H) as [H1 H2].
      constructor; [apply IH1 | apply IH2]; assumption.
Qed.

Theorem matches_lang (r : regex) (s : jsstring) :
  matches r s = true <-> lang r s.
Proof.
  revert r. induction s as [|c s IH]; intros r; cbn [matches].
  - apply nullable_lang.
  - rewrite IH. apply deriv_lang.
Qed.

Lemma lang_any (s : jsstring) : lang (Star (Sym cs_any)) s.
Proof.
  induction s as [|c s IH]; [constructor|].
  apply (lang_Star_app _ [c] s); [constructor; reflexivity | exact IH].
Qed.

(** The embedding of a lookahead: some prefix of the rest of the input
    matches [a], and the rest matches [r]. *)
Lemma lookahead_lang (a r : regex) (s : jsstring) :
  lang (lookahead a r) s <->
  (exists s1 s2, s = s1 ++ s2 /\ lang a s1) /\ lang r s.
Proof.
  unfold lookahead. split.
  - intros H. destruct (lang_And_inv _ _ _ H) as [H1 H2]. split; [|exact H2].
    destruct (lang_Cat_inv _ _ _ H1) as (s1 & s2 & -> & Ha & _). eauto.
  - intros [(s1 & s2 & -> & Ha) Hr]. constructor; [|exact Hr].
    constructor; [exact Ha | apply lang_any].
Qed.

(** The examples of the specification for the two patterns. *)
Example email_regex_examples :
  map (fun s => matches email_regex (js s))
    ["a@b.com"; "user.name@sub.domain.co"; "a@[192.168.0.1]";
     "not-an-email"; "a@"; "@b.com"]%string
  = [true; true; true; false; false; false].
Proof. vm_compute. reflexivity. Qed.

Example password_regex_examples :
  map (fun s => matches (password_tree 6 30) (js s))
    ["abc123"; "abcdef"; "123456"; "ab1"]%string
  = [true; false; false; false].
Proof. vm_compute. reflexivity. Qed.

(** ** The matcher on the blank pattern *)

Lemma matches_Void (s : jsstring) : matches Void s = false.
Proof. induction s as [|c s IH]; [reflexivity | exact IH]. Qed.

Lemma deriv_Star_Sym (c : N) (cs : charset) :
  deriv c (Star (Sym cs)) = if in_charset c cs then Star (Sym cs) else Void.
Proof. cbn [deriv]. destruct (in_charset c cs); reflexivity. Qed.

Lemma matches_Star_Sym (cs : charset) (s : jsstring) :
  matches (Star (Sym cs)) s = forallb (fun c => in_charset c cs) s.
Proof.
  induction s as [|c s IH]; [reflexivity|].
  cbn [matches forallb]. rewrite deriv_Star_Sym.
  destruct (in_charset c cs); [exact IH | apply matches_Void].
Qed.

Lemma isStringEmpty_whitespace (s : jsstring) :
  isStringEmpty (VString s) = true <-> whitespace_only s.
Proof.
  unfold isStringEmpty, blank_regex, whitespace_only.
  rewrite matches_Star_Sym, forallb_forall, List.Forall_forall. reflexivity.
Qed.

(** ** Emptiness *)

Lemma JSON_stringify_undefined (v : value) :
  JSON_stringify v = None <-> v = VUndefined.
Proof.
  destruct v as [| |b|n|s|items|plain props|b]; cbn; try destruct n;
    split; intros H; (reflexivity || discriminate H).
Qed.

Lemma JSON_stringify_object (plain : bool) (props : list (jsstring * value)) :
  JSON_stringify (VObject plain props) =
  Some (JObject (omap (fun p =>
                         match JSON_stringify (snd p) with
                         | Some j => Some (fst p, j)
                         | None => None
                         end) props)).
Proof. reflexivity. Qed.

Lemma object_text_empty (plain : bool) (props : list (jsstring * value)) :
  is_empty_object_text (JSON_stringify (VObject plain props)) = true <->
  no_serialised_property props.
Proof.
  rewrite JSON_stringify_object. unfold no_serialised_property.
  induction props as [|[k x] props IH]; cbn [omap list_omap is_empty_object_text].
  - split; [intros _ ? ? [] | reflexivity].
  - cbn [snd fst]. destruct (JSON_stringify x) as [j|] eqn:E.
    + split; [discriminate|]. intros H.
      assert (x = VUndefined) as -> by (apply (H k); left; reflexivity).
      discriminate.
    + apply JSON_stringify_undefined in E. subst x. rewrite IH.
      split; intros H k' x' Hin.
      * destruct Hin as [Heq|Hin]; [congruence | eauto].
      * apply (H k'). right. exact Hin.
Qed.

Lemma isArrayEmpty_filter (items : list value) :
  isArrayEmpty (VArray items) = true <-> List.filter truthy items = [].
Proof.
  unfold isArrayEmpty. cbn [JSON_stringify].
  destruct (List.filter truthy items) as [|x l]; cbn; split; congruence.
Qed.

Lemma isBlobEmpty_iff (b : Blob) :
  isBlobEmpty (VBlob b) = true <-> blob_size b = 0 \/ blob_type b = [].
Proof.
  unfold isBlobEmpty, jsstring_eqb.
  rewrite orb_true_iff, N.eqb_eq, bool_decide_eq_true. reflexivity.
Qed.

(** C6, as the code has it: [isEmpty v] holds exactly when [v] is
    [undefined] or [null], the number [NaN], a string of white space
    only, an array with no truthy element, a [Blob] of size zero or of
    empty type, or a plain object whose JSON text is the empty object:
    one with no own property that has a JSON form (no property at all,
    or only properties that hold [undefined]). *)
Theorem isEmpty_iff (v : value) :
  isEmpty v = true <-> spec_isEmpty no_serialised_property v.
Proof.
  unfold spec_isEmpty.
  destruct v as [| |b|n|s|items|plain props|b].
  - split; [intros _; left; reflexivity | reflexivity].
  - split; [intros _; right; left; reflexivity | reflexivity].
  - split; [discriminate|].
    intros [H|[H|[H|[(?&H&_)|[(?&H&_)|[(?&H&_)|(?&H&_)]]]]]]; discriminate.
  - destruct n as [|z].
    + split; [intros _; right; right; left; reflexivity | reflexivity].
    + split; [discriminate|].
      intros [H|[H|[H|[(?&H&_)|[(?&H&_)|[(?&H&_)|(?&H&_)]]]]]]; discriminate.
  - transitivity (isStringEmpty (VString s) = true).
    + unfold isEmpty. cbn [isNumberEmpty]. destruct (isStringEmpty (VString s)); cbn; split; congruence.
    + rewrite isStringEmpty_whitespace. split.
      * intros H. right; right; right; left. exists s. split; [reflexivity | exact H].
      * intros [H|[H|[H|[(s'&H&Hw)|[(?&H&_)|[(?&H&_)|(?&H&_)]]]]]]; try discriminate.
        injection H as <-. exact Hw.
  - transitivity (isArrayEmpty (VArray items) = true).
    + unfold isEmpty. cbn [isNumberEmpty isStringEmpty].
      destruct (isArrayEmpty (VArray items)); cbn; split; congruence.
    + rewrite isArrayEmpty_filter. split.
      * intros H. do 4 right. left. exists items. split; [reflexivity | exact H].
      * intros [H|[H|[H|[(?&H&_)|[(l&H&Hf)|[(?&H&_)|(?&H&_)]]]]]]; try discriminate.
        injection H as <-. exact Hf.
  - transitivity (plain = true /\ no_serialised_property props).
    + rewrite <- (object_text_empty plain props).
      unfold isEmpty, isObjectEmpty.
      cbn [isNumberEmpty isStringEmpty isArrayEmpty typeof constructor_is_Object isBlobEmpty].
      rewrite <- andb_true_iff.
      destruct (plain && is_empty_object_text (JSON_stringify (VObject plain props)));
        split; congruence.
    + split.
      * intros [-> H]. do 5 right. left. exists props. split; [reflexivity | exact H].
      * intros [H|[H|[H|[(?&H&_)|[(?&H&_)|[(p&H&Hp)|(?&H&_)]]]]]]; try discriminate.
        injection H as <- <-. split; [reflexivity | exact Hp].
  - transitivity (isBlobEmpty (VBlob b) = true).
    + unfold isEmpty.
      cbn [isNumberEmpty isStringEmpty isArrayEmpty isObjectEmpty typeof
           constructor_is_Object andb].
      destruct (isBlobEmpty (VBlob b)); split; congruence.
    + rewrite isBlobEmpty_iff. split.
      * intros H. do 6 right. exists b. split; [reflexivity | exact H].
      * intros [H|[H|[H|[(?&H&_)|[(?&H&_)|[(?&H&_)|(b'&H&Hb)]]]]]]; try discriminate.
        injection H as <-. exact Hb.
Qed.

(** C6, as written, fails on a plain object that has an own enumerable
    key holding [undefined]: its JSON text is the empty object, so it is
    empty for the code, and it has a key. *)
Lemma isEmpty_object_with_undefined_property :
  isEmpty (VObject true [(js "a", VUndefined)]) = true /\
  ~ spec_isEmpty no_own_keys (VObject true [(js "a", VUndefined)]).
Proof.
  split; [reflexivity|].
  intros [H|[H|[H|[(?&H&_)|[(?&H&_)|[(p&H&Hp)|(?&H&_)]]]]]]; try discriminate.
  injection H as <-. discriminate Hp.
Qed.

(** ** Inclusion and exclusion *)

Section TextProperties.
Context {host : Host}.

(** The two scans run the same tests in the same order and leave the
    same world; where one answers [b] the other answers [negb b], and
    where one throws so does the other. *)
Lemma isTextExcludes_scan (data : list pattern) (text : jsstring) (w : world) :
  isTextExcludes data text w =
  match isTextIncludes data text w with
  | (Return b, w') => (Return (negb b), w')
  | (Throw e, w') => (Throw e, w')
  end.
Proof.
  revert w. induction data as [|[reg|s] rest IH]; intros w.
  - reflexivity.
  - cbn [isTextExcludes isTextIncludes]. unfold bind.
    destruct (test reg text w) as [[[|]|e] w1]; [reflexivity | apply IH | reflexivity].
  - cbn [isTextExcludes isTextIncludes]. unfold bind.
    destruct (new_RegExp s w) as [[reg|e] w1]; [|reflexivity].
    destruct (test reg text w1) as [[[|]|e] w2]; [reflexivity | apply IH | reflexivity].
Qed.

(** C7: on a pattern list whose patterns compile and match without
    throwing, [isTextExcludes] answers the negation of [isTextIncludes],
    for every text and from every state of the pattern engine. *)
Theorem isTextExcludes_complement (data : list pattern) (text : jsstring)
    (w w' : world) (b : bool) :
  isTextIncludes data text w = (Return b, w') ->
  isTextExcludes data text w = (Return (negb b), w').
Proof. intros H. rewrite isTextExcludes_scan, H. reflexivity. Qed.

End TextProperties.

Lemma isTextExcludes_complement_witness :
  @isTextExcludes (example_host (mkImage (Fin 1) (Fin 1)))
    [@PString (example_host (mkImage (Fin 1) (Fin 1))) (js "image");
     @PRegExp (example_host (mkImage (Fin 1) (Fin 1))) (search (literal (js "png")))]
    (js "text/png") (example_world _) =
  (Return false, example_world _).
Proof.
  apply (@isTextExcludes_complement (example_host (mkImage (Fin 1) (Fin 1)))
           [@PString (example_host (mkImage (Fin 1) (Fin 1))) (js "image");
            @PRegExp (example_host (mkImage (Fin 1) (Fin 1)))
              (search (literal (js "png")))]
           (js "text/png") (example_world _) (example_world _) true).
  vm_compute. reflexivity.
Defined.

(** ** The built-in validators *)

Section ValidatorProperties.
Context {host : Host}.

(** C10: a bound of [0] is falsy, so [opt.min || 6] and [opt.max || 30]
    replace it by the default: [{min: 0}] and [{max: 0}] behave as the
    default bounds do, whatever else the option carries. *)
Theorem passwordValidator_zero_bound (value : value) (o : ValidateOption.t) :
  passwordValidator value (Some (ValidateOption.set_min (Some (Fin 0)) o)) =
  passwordValidator value (Some (ValidateOption.set_min (Some (Fin 6)) o))
  /\ passwordValidator value (Some (ValidateOption.set_max (Some (Fin 0)) o)) =
     passwordValidator value (Some (ValidateOption.set_max (Some (Fin 30)) o))
  /\ passwordValidator value (Some (ValidateOption.set_min (Some (Fin 0)) o)) =
     passwordValidator value (Some (ValidateOption.set_min None o))
  /\ passwordValidator value (Some (ValidateOption.set_max (Some (Fin 0)) o)) =
     passwordValidator value (Some (ValidateOption.set_max None o))
  /\ passwordValidator value
       (Some (ValidateOption.set_min (Some (Fin 0)) ValidateOption.empty)) =
     passwordValidator value None
  /\ passwordValidator value
       (Some (ValidateOption.set_max (Some (Fin 0)) ValidateOption.empty)) =
     passwordValidator value None.
Proof. repeat split; reflexivity. Qed.

(** What the dimension checks test: a bound that is set and lies below,
    respectively above, the measure of the image. *)
Lemma set_and_lt_iff (bound x : Z) :
  set_and_lt (Some (Fin bound)) (Fin x) = true <-> (bound <> 0 /\ bound < x)%Z.
Proof.
  unfold set_and_lt, number_truthy, number_lt.
  rewrite andb_true_iff, negb_true_iff, Z.eqb_neq, Z.ltb_lt. reflexivity.
Qed.

Lemma set_and_gt_iff (bound x : Z) :
  set_and_gt (Some (Fin bound)) (Fin x) = true <-> (bound <> 0 /\ x < bound)%Z.
Proof.
  unfold set_and_gt, number_gt, number_truthy, number_lt.
  rewrite andb_true_iff, negb_true_iff, Z.eqb_neq, Z.ltb_lt. reflexivity.
Qed.

(** C9: on a value that is not a [Blob] the image validator answers
    [null], emits one warning and nothing else (no helper is called, the
    pattern engine is not touched), and does not throw. *)
Theorem imageValidator_not_blob (value : value) (option : option ValidateOption.t)
    (w : world) :
  isBlob value = false ->
  imageValidator value option w =
  (Return RNull,
   mkWorld
     (trace w ++ [Warning (js "utils[function validImage]: The value is not Blob object.")])
     (patterns w)).
Proof. destruct value; intros H; try discriminate H; reflexivity. Qed.

End ValidatorProperties.

Lemma imageValidator_not_blob_witness :
  @imageValidator (example_host (mkImage (Fin 1) (Fin 1)))
    (VString (js "photo.png")) None (example_world _) =
  (Return RNull,
   @mkWorld (example_host (mkImage (Fin 1) (Fin 1)))
     [Warning (js "utils[function validImage]: The value is not Blob object.")] tt).
Proof.
  apply (@imageValidator_not_blob (example_host (mkImage (Fin 1) (Fin 1)))
           (VString (js "photo.png")) None (example_world _)).
  reflexivity.
Defined.

(** C2 on the code: the comparisons of the four dimension checks point
    the other way.  An image 100 wide passes [minWidth: 200] with no
    message, and fails [minWidth: 50] (with the default message of
    [maxWidth]); it passes [maxWidth: 50] and fails [maxWidth: 200]. *)
Theorem imageValidator_dimension_checks_inverted :
  let run := @imageValidator (example_host (mkImage (Fin 100) (Fin 100))) in
  let blob := VBlob (mkBlob 2048 (js "image/png")) in
  let minWidth n :=
    Some (ValidateOption.make None None None None None None None None
            (Some (Fin n)) None None None) in
  let maxWidth n :=
    Some (ValidateOption.make None None None None None None None None
            None (Some (Fin n)) None None) in
  fst (run blob (minWidth 200%Z) (example_world _)) = Return RNull
  /\ fst (run blob (minWidth 50%Z) (example_world _)) =
     Return (RList [js "圖片寬度大小超出限制"])
  /\ fst (run blob (maxWidth 50%Z) (example_world _)) = Return RNull
  /\ fst (run blob (maxWidth 200%Z) (example_world _)) =
     Return (RList [js "圖片寬度大小低於限制"]).
Proof. vm_compute. repeat split; reflexivity. Qed.

(** ** The order of enumeration *)

Lemma in_insert_index {A : Type} (i : N) (p : A) (l : list (N * A)) (q : N * A) :
  In q (insert_index i p l) <-> q = (i, p) \/ In q l.
Proof.
  induction l as [|[j r] rest IH]; cbn [insert_index].
  - cbn. intuition congruence.
  - destruct (i <? j).
    + cbn. intuition congruence.
    + cbn [In]. rewrite IH. intuition congruence.
Qed.

Lemma in_indexed {A : Type} (obj : list (jsstring * A))
    (acc : list (N * (jsstring * A))) (q : N * (jsstring * A)) :
  In q (fold_left
          (fun acc p =>
             match array_index (fst p) with
             | Some i => insert_index i p acc
             | None => acc
             end) obj acc)
  <-> In q acc \/ (In (snd q) obj /\ array_index (fst (snd q)) = Some (fst q)).
Proof.
  revert acc. induction obj as [|p obj IH]; intros acc; cbn [fold_left].
  - cbn. tauto.
  - rewrite IH. destruct (array_index (fst p)) as [i|] eqn:E.
    + rewrite in_insert_index. cbn [In]. split.
      * intros [[->|H]|H].
        -- right. cbn [fst snd]. split; [left; reflexivity | exact E].
        -- left. exact H.
        -- right. tauto.
      * intros [H|[[Hp|H] Hq]].
        -- left. right. exact H.
        -- left. left. destruct q as [j q']. cbn [fst snd] in *. congruence.
        -- right. split; assumption.
    + cbn [In]. split.
      * intros [H|[H Hq]]; [left; exact H | right; split; [right; exact H | exact Hq]].
      * intros [H|[[Hp|H] Hq]]; [left; exact H | congruence | right; split; assumption].
Qed.

(** [for (key in obj)] visits every own property, once. *)
Lemma in_for_in_order {A : Type} (obj : list (jsstring * A)) (p : jsstring * A) :
  In p (for_in_order obj) <-> In p obj.
Proof.
  unfold for_in_order, indexed. rewrite in_app_iff, in_map_iff, List.filter_In.
  split.
  - intros [(q & <- & Hq)|[H _]]; [|exact H].
    apply in_indexed in Hq. destruct Hq as [[]|[H _]]. exact H.
  - intros H. destruct (array_index (fst p)) as [i|] eqn:E.
    + left. exists (i, p). split; [reflexivity|].
      apply in_indexed. right. split; assumption.
    + right. split; [exact H | reflexivity].
Qed.

(** Names that are array indices come first, by value; the others keep
    their order. *)
Example for_in_order_example :
  map fst (for_in_order
             [(js "b", tt); (js "10", tt); (js "a", tt); (js "2", tt); (js "01", tt)])
  = [js "2"; js "10"; js "b"; js "a"; js "01"].
Proof. vm_compute. reflexivity. Qed.

(** ** The engine *)

Section EngineProperties.
Context {host : Host}.

Lemma bind_Return {A B : Type} (m : Eff A) (k : A -> Eff B) (w w' : world) (b : B) :
  bind m k w = (Return b, w') ->
  exists a w1, m w = (Return a, w1) /\ k a w1 = (Return b, w').
Proof.
  unfold bind. destruct (m w) as [[a|e] w1]; intros H; [eauto | discriminate H].
Qed.

Lemma ret_Return {A : Type} (a b : A) (w w' : world) :
  ret a w = (Return b, w') -> a = b.
Proof. unfold ret. intros H. injection H as -> _. reflexivity. Qed.




Lemma filter_nonempty_all (l : list jsstring) :
  Forall (fun s => s <> []) (List.filter nonempty l).
Proof.
  apply List.Forall_forall. intros s Hin.
  apply List.filter_In in Hin. destruct Hin as [_ Hs].
  destruct s; [discriminate Hs | discriminate].
Qed.

(** What [validateField] answers, when it answers. *)
Lemma validateField_answer (this : Validator) (value : value)
    (options : option ValidateField) (σ : store) (w w' : world)
    (r : option (list jsstring)) :
  validateField this value options σ w = (Return r, w') ->
  forall l, r = Some l -> l <> [] /\ Forall (fun s => s <> []) l.
Proof.
  unfold validateField. intros H l ->.
  apply bind_Return in H. destruct H as (errors & w1 & _ & H).
  unfold ret in H. pose proof (filter_nonempty_all errors) as Hne.
  destruct (List.filter nonempty errors) as [|s l']; [discriminate H|].
  injection H as <- _. split; [discriminate | exact Hne].
Qed.


Lemma assign_key_all {A : Type} (P : jsstring * A -> Prop) (key : jsstring)
    (a : A) (obj : list (jsstring * A)) :
  P (key, a) -> Forall P obj -> Forall P (assign_key key a obj).
Proof.
  intros Ha. induction 1 as [|[k b] rest Hb Hrest IH]; cbn [assign_key].
  - constructor; [exact Ha | constructor].
  - unfold jsstring_eqb. case_bool_decide as E.
    + subst k. constructor; assumption.
    + constructor; assumption.
Qed.



(** C4, as the code has it: every engine that the constructor builds
    refers to the one table of the module, so a registration through one
    engine is the table that every engine reads from then on. *)
Theorem setValidatorHandler_shared (ma mb : value)
    (oa ob : option ValidatorValidOption) (σa σb σ : store)
    (name : jsstring) (handler : ValidatorHandler) :
  let a := fst (new_Validator ma oa σa) in
  let b := fst (new_Validator mb ob σb) in
  table_of (setValidatorHandler a name handler σ) b
  = <[name := handler]> (table_of σ b)
  /\ table_of (setValidatorHandler a name handler σ) b !! name = Some handler.
Proof.
  cbn zeta. unfold setValidatorHandler, table_of, store, ValidatorHandlerList.
  cbn [new_Validator fst validatorHandler].
  rewrite lookup_insert_eq. split; [reflexivity | apply lookup_insert_eq].
Qed.

Lemma isValid_None (this : Validator) (σ : store) :
  isValid this None σ = negb (length (errorsToArray this σ) =? 0)%nat.
Proof. reflexivity. Qed.

(** C5, as the code has it: [isValid] tells whether there are errors.
    With a non-empty field name it is true exactly when the stored entry
    of that field is a non-empty array; without a field name it is true
    exactly when [errorsToArray] is non-empty; and the empty field name,
    being falsy, is treated as no field name. *)
Theorem isValid_polarity (this : Validator) (σ : store) :
  (forall field, field <> [] ->
     (isValid this (Some field) σ = true <->
      exists a items,
        lookup_key field (errors_of σ this) = Some (ERef a) /\
        array_at σ a = Some items /\ items <> []))
  /\ (isValid this None σ = true <-> errorsToArray this σ <> [])
  /\ isValid this (Some []) σ = isValid this None σ.
Proof.
  split; [|split].
  - intros field Hne. destruct field as [|c field]; [congruence|].
    unfold isValid.
    destruct (lookup_key (c :: field) (errors_of σ this)) as [[|a]|] eqn:E.
    + cbn [entry_value]. split; [discriminate|]. intros (a & items & H & _). discriminate H.
    + cbn [entry_value]. destruct (array_at σ a) as [items|] eqn:Ea.
      * destruct items as [|s items]; cbn.
        -- split; [discriminate|]. intros (a' & items' & H & Ha & Hn).
           injection H as <-. rewrite Ea in Ha. injection Ha as <-. congruence.
        -- split; [|reflexivity]. intros _. exists a, (s :: items).
           split; [reflexivity|]. split; [exact Ea | discriminate].
      * split; [discriminate|]. intros (a' & items' & H & Ha & _).
        injection H as <-. rewrite Ea in Ha. discriminate Ha.
    + split; [discriminate|]. intros (a & items & H & _). discriminate H.
  - rewrite isValid_None. destruct (errorsToArray this σ); cbn; split; congruence.
  - reflexivity.
Qed.

Lemma new_Validator_errors_empty (m : value) (o : option ValidatorValidOption)
    (σ : store) :
  errors_of (snd (new_Validator m o σ)) (fst (new_Validator m o σ)) = [].
Proof.
  unfold errors_of, mapping_at, new_Validator, store. cbn [fst snd errors].
  rewrite lookup_insert_eq. reflexivity.
Qed.

(** The [errors] mapping of a new engine is in the store. *)
Lemma new_Validator_closed (m : value) (o : option ValidatorValidOption)
    (σ : store) :
  mapping_closed (snd (new_Validator m o σ)) (errors (fst (new_Validator m o σ))).
Proof.
  unfold mapping_closed. fold (errors_of (snd (new_Validator m o σ)) (fst (new_Validator m o σ))).
  rewrite new_Validator_errors_empty. split; [|constructor].
  exists []. unfold new_Validator, store. cbn [fst snd errors]. apply lookup_insert_eq.
Qed.

End EngineProperties.



(** A name that the table inherits answers as [Object.prototype] has it;
    a field that the rule set has no rule for gets the rule that the rule
    set inherits, if any, which names no validator. *)
Example validateField_inherited_name :
  fst (@validateField demo (fst demo_engine) (VString (js "x"))
         (Some [(js "toString", None)]) (snd demo_engine) demo_world)
  = Return (Some [js "[object Undefined]"]).
Proof. vm_compute. reflexivity. Qed.

Example validate_inherited_rule :
  let engine :=
    @new_Validator demo
      (VObject true [(js "toString", VString (js "x")); (js "a", VString (js "y"))])
      (Some []) (@module_store demo) in
  fst (@validate demo (fst engine) None (snd engine) demo_world)
  = Return [(js "toString", None)].
Proof. vm_compute. reflexivity. Qed.

(** C4, as written, fails: a validator registered through one engine is
    found by another engine, whose field rule naming it threw before and
    answers after. *)
Lemma setValidatorHandler_reaches_other_engine :
  let a := fst demo_engine in
  let b := fst demo_engine2 in
  let σ := snd demo_engine2 in
  let σ' := @setValidatorHandler demo a (js "same") (@equalValidator demo) σ in
  errors a <> errors b
  /\ @table_of demo σ b !! js "same" = None
  /\ is_Some (@table_of demo σ' b !! js "same")
  /\ fst (@validateField demo b (VString (js "x"))
            (Some [(js "same", None)]) σ demo_world) = Throw TypeError
  /\ fst (@validateField demo b (VString (js "x"))
            (Some [(js "same", None)]) σ' demo_world)
     = Return (Some [js "輸入資料不相等"]).
Proof.
  cbn zeta. split; [vm_compute; discriminate|].
  split; [vm_compute; reflexivity|].
  split; [vm_compute; eexists; reflexivity|].
  split; vm_compute; reflexivity.
Qed.

(** C5, as written, fails on the empty field name: its own entry is an
    empty array, and [isValid('')] is true because another field has an
    error. *)
Lemma isValid_empty_field_name :
  let this := fst written_engine in
  let σ := snd written_engine in
  lookup_key [] (@errors_of demo σ this) = Some (ERef 4%positive)
  /\ @array_at demo σ 4%positive = Some []
  /\ @isValid demo this (Some []) σ = true.
Proof. vm_compute. repeat split; reflexivity. Qed.

Lemma isValid_polarity_witness :
  js "a" <> [] /\
  (@isValid demo (fst written_engine) (Some (js "a")) (snd written_engine) = true <->
   exists a items,
     lookup_key (js "a") (@errors_of demo (snd written_engine) (fst written_engine))
     = Some (ERef a) /\
     @array_at demo (snd written_engine) a = Some items /\ items <> []).
Proof.
  split; [vm_compute; discriminate|].
  apply (proj1 (@isValid_polarity demo (fst written_engine) (snd written_engine))).
  vm_compute. discriminate.
Defined.

(** C1 on the code: [validate] computes the per-field results and hands
    them to the caller, and the [errors] object of the engine stays as
    the constructor made it, so the three readers see no error. *)
Theorem validate_results_not_stored :
  let this := fst demo_engine in
  let σ := snd demo_engine in
  fst (@validate demo this None σ demo_world)
  = Return [(js "email", Some [js "請輸入正確的電子郵件信箱格式"]); (js "pass", None)]
  /\ @isValid demo this (Some (js "email")) σ = false
  /\ @isValid demo this (Some (js "pass")) σ = false
  /\ @errorsToArray demo this σ = [].
Proof. vm_compute. repeat split; reflexivity. Qed.

(** ** The copy that [getErrors] returns *)

Section CopyProperties.
Context {host : Host}.

Lemma entry_value_weaken (σ σ' : gmap loc cell) (e : entry) :
  σ ⊆ σ' -> entry_closed σ e -> entry_value σ' e = entry_value σ e.
Proof.
  intros Hsub Hc. destruct e as [|a]; [reflexivity|].
  destruct Hc as (items & Ha). unfold entry_value, array_at, store in *.
  rewrite Ha, (lookup_weaken _ _ _ _ Ha Hsub). reflexivity.
Qed.

Lemma entry_closed_weaken (σ σ' : gmap loc cell) (e : entry) :
  σ ⊆ σ' -> entry_closed σ e -> entry_closed σ' e.
Proof.
  intros Hsub Hc. destruct e as [|a]; [exact I|].
  destruct Hc as (items & Ha). exists items. unfold store in *.
  exact (lookup_weaken _ _ _ _ Ha Hsub).
Qed.

Lemma strings_of_messages (items : list jsstring) :
  strings_of (map (fun x => default JNull (JSON_stringify x)) (map VString items))
  = Some items.
Proof.
  induction items as [|s items IH]; [reflexivity|].
  cbn [map JSON_stringify default from_option id strings_of]. cbn in IH |- *.
  rewrite IH. reflexivity.
Qed.

(** One entry through [JSON.stringify] and [JSON.parse]: the same value,
    in cells that the store did not have. *)
Lemma parse_entry_closed (σ σ1 : gmap loc cell) (e : entry) :
  σ ⊆ σ1 -> entry_closed σ e ->
  exists j e' (σ2 : gmap loc cell),
    JSON_stringify (entry_value σ e) = Some j
    /\ parse_entry j σ1 = Some (e', σ2)
    /\ σ1 ⊆ σ2
    /\ entry_closed σ2 e'
    /\ entry_value σ2 e' = entry_value σ e
    /\ forall l, In l (entry_cells e') -> σ1 !! l = None.
Proof.
  intros Hsub Hc. destruct e as [|a].
  - exists JNull, ENull, σ1.
    split; [reflexivity|]. split; [reflexivity|]. split; [reflexivity|].
    split; [exact I|]. split; [reflexivity | intros l []].
  - destruct Hc as (items & Ha).
    assert (Hfresh : σ1 !! fresh (dom σ1) = None)
      by (apply not_elem_of_dom, is_fresh).
    exists (JArray (map JString items)), (ERef (fresh (dom σ1))),
      (<[fresh (dom σ1) := CArray items]> σ1).
    unfold entry_value at 1, array_at. unfold store in *. rewrite Ha.
    assert (Hs : map (fun x => default JNull (JSON_stringify x)) (map VString items)
                 = map JString items).
    { clear. induction items as [|s items IH]; [reflexivity|].
      cbn in IH |- *. rewrite IH. reflexivity. }
    split; [cbn [JSON_stringify]; rewrite Hs; reflexivity|].
    split.
    { unfold parse_entry. rewrite <- Hs, strings_of_messages. reflexivity. }
    split; [apply insert_subseteq; exact Hfresh|].
    split; [exists items; unfold store; apply lookup_insert_eq|].
    split.
    { unfold entry_value, array_at, store. rewrite lookup_insert_eq, Ha. reflexivity. }
    intros l [<-|[]]. exact Hfresh.
Qed.

(** The members of a mapping through [JSON.stringify] and
    [JSON.parse]. *)
Lemma parse_members_closed (σ : gmap loc cell) (es : list (jsstring * entry)) :
  Forall (fun p => entry_closed σ (snd p)) es ->
  forall σ1 : gmap loc cell, σ ⊆ σ1 ->
  exists es' (σ2 : gmap loc cell),
    parse_members
      (omap (fun p =>
               match JSON_stringify (snd p) with
               | Some j => Some (fst p, j)
               | None => None
               end)
         (map (fun p => (fst p, entry_value σ (snd p))) es)) σ1
    = Some (es', σ2)
    /\ σ1 ⊆ σ2
    /\ Forall (fun p => entry_closed σ2 (snd p)) es'
    /\ map (fun p => (fst p, entry_value σ2 (snd p))) es'
       = map (fun p => (fst p, entry_value σ (snd p))) es
    /\ forall l, In l (flat_map (fun p => entry_cells (snd p)) es') -> σ1 !! l = None.
Proof.
  induction 1 as [|[k e] es Hc Hes IH]; intros σ1 Hsub.
  - exists [], σ1.
    split; [reflexivity|]. split; [reflexivity|]. split; [constructor|].
    split; [reflexivity | intros l []].
  - cbn [snd] in Hc.
    destruct (parse_entry_closed σ σ1 e Hsub Hc)
      as (j & e' & σ2 & Hj & Hp & H12 & Hc' & Hv & Hf).
    assert (Hsub2 : σ ⊆ σ2) by (etransitivity; eassumption).
    destruct (IH σ2 Hsub2) as (es' & σ3 & Hpm & H23 & Hcs & Hvs & Hfs).
    exists ((k, e') :: es'), σ3.
    cbn [map omap list_omap fst snd]. rewrite Hj.
    cbn [parse_members]. rewrite Hp, Hpm.
    split; [reflexivity|].
    split; [etransitivity; eassumption|].
    split.
    { constructor; [|exact Hcs]. cbn [snd]. eapply entry_closed_weaken; eassumption. }
    split.
    { cbn [map fst snd]. rewrite Hvs, (entry_value_weaken σ2 σ3 e' H23 Hc'), Hv.
      reflexivity. }
    intros l Hin. cbn [flat_map snd] in Hin. apply in_app_or in Hin.
    destruct Hin as [Hin|Hin]; [exact (Hf l Hin)|].
    eapply lookup_weaken_None; [exact (Hfs l Hin) | exact H12].
Qed.

Lemma map_VString_inj (l l' : list jsstring) :
  map VString l = map VString l' -> l = l'.
Proof.
  revert l'. induction l as [|s l IH]; intros [|s' l'] H; try discriminate H.
  - reflexivity.
  - cbn [map] in H. injection H as -> H. f_equal. exact (IH l' H).
Qed.

Lemma entry_items_value (σ σ' : store) (e : entry) :
  entry_value σ' e = entry_value σ e -> entry_items σ' e = entry_items σ e.
Proof.
  destruct e as [|a]; [reflexivity|]. unfold entry_value, entry_items.
  destruct (array_at σ' a) as [items'|], (array_at σ a) as [items|]; intros H;
    try discriminate H; [|reflexivity].
  injection H as H. apply map_VString_inj in H. subst items'. reflexivity.
Qed.

Lemma flat_map_agree {A B : Type} (f g : A -> list B) (l : list A) :
  (forall a, In a l -> f a = g a) -> flat_map f l = flat_map g l.
Proof.
  induction l as [|a l IH]; intros H; [reflexivity|].
  cbn [flat_map]. rewrite (H a (or_introl eq_refl)), IH; [reflexivity|].
  intros b Hb. apply H. right. exact Hb.
Qed.

(** The readers of an engine see only its mapping and the values of its
    entries. *)
Lemma readers_agree (this : Validator) (σ σ' : store) :
  errors_of σ' this = errors_of σ this ->
  Forall (fun p => entry_value σ' (snd p) = entry_value σ (snd p)) (errors_of σ this) ->
  mapping_value σ' (errors this) = mapping_value σ (errors this)
  /\ errorsToArray this σ' = errorsToArray this σ
  /\ forall field, isValid this field σ' = isValid this field σ.
Proof.
  intros He Hv.
  assert (Hin : forall p, In p (errors_of σ this) ->
                  entry_value σ' (snd p) = entry_value σ (snd p))
    by (apply List.Forall_forall; exact Hv).
  assert (Harr : errorsToArray this σ' = errorsToArray this σ).
  { unfold errorsToArray. rewrite He. f_equal.
    apply flat_map_agree. intros p Hp. apply entry_items_value, Hin, Hp. }
  split; [|split].
  - unfold mapping_value. fold (errors_of σ' this). fold (errors_of σ this). rewrite He.
    f_equal. apply List.map_ext_in. intros p Hp. rewrite (Hin p Hp). reflexivity.
  - exact Harr.
  - intros field. unfold isValid. rewrite Harr, He.
    destruct field as [[|c s]|]; [reflexivity| |reflexivity].
    clear He Harr Hin. revert Hv. generalize (errors_of σ this). intros es Hv.
    induction Hv as [|[k e] es Hp _ IH]; [reflexivity|].
    cbn [lookup_key]. destruct (jsstring_eqb k (c :: s)); [|exact IH].
    cbn [snd] in Hp. rewrite Hp. reflexivity.
Qed.

(** C8: on an engine whose [errors] mapping is in the store with its
    arrays, [getErrors] returns a mapping that is equal to it as a value
    and is made of cells that the store did not have; whatever is then
    written to, or removed from, the cells of the returned mapping, the
    engine's mapping, [errorsToArray] and [isValid] are as before. *)
Theorem getErrors_independent_copy (this : Validator) (σ : store) :
  mapping_closed σ (errors this) ->
  exists (r : loc) (σ' : store),
    getErrors this σ = Some (r, σ')
    /\ mapping_value σ' r = mapping_value σ (errors this)
    /\ (forall l, In l (mapping_cells σ' r) -> σ !! l = None)
    /\ (forall σ'' : store,
          (forall l, ~ In l (mapping_cells σ' r) -> σ'' !! l = σ' !! l) ->
          mapping_value σ'' (errors this) = mapping_value σ (errors this)
          /\ errorsToArray this σ'' = errorsToArray this σ
          /\ forall field, isValid this field σ'' = isValid this field σ).
Proof.
  intros [(es & Hl) Hcl]. unfold store in *.
  assert (Hes : mapping_at σ (errors this) = es)
    by (unfold mapping_at, store; rewrite Hl; reflexivity).
  rewrite Hes in Hcl.
  destruct (parse_members_closed σ es Hcl σ (reflexivity σ))
    as (es' & σ2 & Hpm & H2 & Hcs & Hvs & Hfs).
  assert (Hfresh : σ2 !! fresh (dom σ2) = None)
    by (apply not_elem_of_dom, is_fresh).
  set (r := fresh (dom σ2)) in *.
  set (σ' := <[r := CErrors es']> σ2).
  assert (H2' : σ2 ⊆ σ') by (apply insert_subseteq; exact Hfresh).
  assert (Hes' : mapping_at σ' r = es')
    by (unfold mapping_at, store, σ'; rewrite lookup_insert_eq; reflexivity).
  assert (Hcells : forall l, In l (mapping_cells σ' r) -> σ !! l = None).
  { intros l Hin. unfold mapping_cells in Hin. rewrite Hes' in Hin.
    destruct Hin as [<-|Hin]; [|exact (Hfs l Hin)].
    eapply lookup_weaken_None; [exact Hfresh | exact H2]. }
  exists r, σ'. split; [|split; [|split]].
  - unfold getErrors, mapping_value. rewrite Hes, JSON_stringify_object.
    cbn [JSON_parse]. rewrite Hpm. reflexivity.
  - unfold mapping_value. rewrite Hes', Hes, <- Hvs. f_equal.
    apply List.map_ext_in. intros p Hp. f_equal.
    apply entry_value_weaken; [exact H2'|].
    exact (proj1 (List.Forall_forall _ _) Hcs p Hp).
  - exact Hcells.
  - intros σ'' Hagree.
    assert (Hkeep : forall l c, σ !! l = Some c -> σ'' !! l = Some c).
    { intros l c Hc. rewrite Hagree.
      - eapply lookup_weaken; [|exact H2']. eapply lookup_weaken; [exact Hc | exact H2].
      - intros Hin. rewrite (Hcells l Hin) in Hc. discriminate Hc. }
    apply readers_agree.
    + unfold errors_of. rewrite Hes. unfold mapping_at, store.
      rewrite (Hkeep _ _ Hl). reflexivity.
    + unfold errors_of. rewrite Hes. apply List.Forall_forall. intros [k e] Hp.
      pose proof (proj1 (List.Forall_forall _ _) Hcl (k, e) Hp) as Hc.
      cbn [snd] in Hc |- *. destruct e as [|a]; [reflexivity|].
      destruct Hc as (items & Ha). unfold entry_value, array_at, store in *.
      rewrite Ha, (Hkeep _ _ Ha). reflexivity.
Qed.

End CopyProperties.

Lemma getErrors_independent_copy_witness :
  exists (r : loc) (σ' : @store demo),
    @getErrors demo (fst written_engine) (snd written_engine) = Some (r, σ')
    /\ @mapping_value demo σ' r
       = @mapping_value demo (snd written_engine) (errors (fst written_engine))
    /\ (forall l, In l (@mapping_cells demo σ' r) -> snd written_engine !! l = None)
    /\ (forall σ'' : @store demo,
          (forall l, ~ In l (@mapping_cells demo σ' r) -> σ'' !! l = σ' !! l) ->
          @mapping_value demo σ'' (errors (fst written_engine))
          = @mapping_value demo (snd written_engine) (errors (fst written_engine))
          /\ @errorsToArray demo (fst written_engine) σ''
             = @errorsToArray demo (fst written_engine) (snd written_engine)
          /\ forall field,
               @isValid demo (fst written_engine) field σ''
               = @isValid demo (fst written_engine) field (snd written_engine)).
Proof.
  apply (@getErrors_independent_copy demo (fst written_engine) (snd written_engine)).
  split.
  - eexists. reflexivity.
  - repeat constructor; eexists; reflexivity.
Defined.

(** * Further properties of the code *)

(** ** The patterns of the password and e-mail validators *)

Lemma lang_Star_Sym (cs : charset) (s : jsstring) :
  lang (Star (Sym cs)) s <-> Forall (fun c => in_charset c cs = true) s.
Proof.
  rewrite <- matches_lang, matches_Star_Sym, forallb_forall, List.Forall_forall.
  reflexivity.
Qed.

Lemma lang_Sym_inv (cs : charset) (s : jsstring) :
  lang (Sym cs) s -> exists c, s = [c] /\ in_charset c cs = true.
Proof. intros H. inversion H; subst. eauto. Qed.

Lemma lang_times_Sym (n : nat) (cs : charset) (s : jsstring) :
  lang (times n (Sym cs)) s <->
  length s = n /\ Forall (fun c => in_charset c cs = true) s.
Proof.
  revert s. induction n as [|n IH]; intros s; cbn [times].
  - split.
    + intros H. rewrite (lang_Eps_inv _ H). split; [reflexivity | constructor].
    + intros [H _]. destruct s; [constructor | discriminate H].
  - split.
    + intros H. destruct (lang_Cat_inv _ _ _ H) as (s1 & s2 & -> & H1 & H2).
      destruct (lang_Sym_inv _ _ H1) as (c & -> & Hc). apply IH in H2.
      destruct H2 as [Hl Hf]. cbn. split; [congruence | constructor; assumption].
    + intros [Hl Hf]. destruct s as [|c s]; [discriminate Hl|].
      apply List.Forall_cons_iff in Hf. destruct Hf as [Hc Hf].
      apply (lang_Cat _ _ [c] s); [constructor; exact Hc|].
      apply IH. split; [cbn in Hl; congruence | exact Hf].
Qed.

Lemma lang_upto_Sym (n : nat) (cs : charset) (s : jsstring) :
  lang (upto n (Sym cs)) s <->
  (length s <= n)%nat /\ Forall (fun c => in_charset c cs = true) s.
Proof.
  revert s. induction n as [|n IH]; intros s; cbn [upto].
  - split.
    + intros H. rewrite (lang_Eps_inv _ H). split; [reflexivity | constructor].
    + intros [H _]. destruct s; [constructor | cbn in H; lia].
  - split.
    + intros H. destruct (lang_Alt_inv _ _ _ H) as [H0|H0].
      * rewrite (lang_Eps_inv _ H0). split; [cbn; lia | constructor].
      * destruct (lang_Cat_inv _ _ _ H0) as (s1 & s2 & -> & H1 & H2).
        destruct (lang_Sym_inv _ _ H1) as (c & -> & Hc). apply IH in H2.
        destruct H2 as [Hl Hf]. cbn. split; [lia | constructor; assumption].
    + intros [Hl Hf]. destruct s as [|c s]; [apply lang_Alt_l; constructor|].
      apply List.Forall_cons_iff in Hf. destruct Hf as [Hc Hf].
      apply lang_Alt_r. apply (lang_Cat _ _ [c] s); [constructor; exact Hc|].
      apply IH. split; [cbn in Hl; lia | exact Hf].
Qed.

Lemma lang_between_Sym (lo hi : nat) (cs : charset) (s : jsstring) :
  (lo <= hi)%nat ->
  lang (between lo hi (Sym cs)) s <->
  (lo <= length s <= hi)%nat /\ Forall (fun c => in_charset c cs = true) s.
Proof.
  intros Hle. unfold between. split.
  - intros H. destruct (lang_Cat_inv _ _ _ H) as (s1 & s2 & -> & H1 & H2).
    apply lang_times_Sym in H1. apply lang_upto_Sym in H2.
    destruct H1 as [Hl1 Hf1], H2 as [Hl2 Hf2]. rewrite length_app.
    split; [lia | apply List.Forall_app; split; assumption].
  - intros [Hl Hf]. rewrite <- (firstn_skipn lo s).
    rewrite <- (firstn_skipn lo s) in Hf. apply List.Forall_app in Hf.
    destruct Hf as [Hf1 Hf2].
    constructor.
    + apply lang_times_Sym. split; [|exact Hf1]. rewrite List.length_firstn. lia.
    + apply lang_upto_Sym. split; [|exact Hf2]. rewrite List.length_skipn. lia.
Qed.

(** [(?=.*x)] in front of a pattern without line terminators asks for an
    [x] somewhere. *)
Lemma lang_prefix_with (cs : charset) (s : jsstring) :
  Forall (fun c => in_charset c cs_dot = true) s ->
  (exists s1 s2, s = s1 ++ s2 /\ lang (Cat (Star (Sym cs_dot)) (Sym cs)) s1) <->
  Exists (fun c => in_charset c cs = true) s.
Proof.
  intros Hdot. split.
  - intros (s1 & s2 & -> & H).
    destruct (lang_Cat_inv _ _ _ H) as (q & d & -> & _ & Hd).
    destruct (lang_Sym_inv _ _ Hd) as (c & -> & Hc).
    apply List.Exists_exists. exists c. split; [|exact Hc].
    apply in_or_app. left. apply in_or_app. right. left. reflexivity.
  - intros H. apply List.Exists_exists in H. destruct H as (c & Hin & Hc).
    apply in_split in Hin. destruct Hin as (q & rest & ->).
    exists (q ++ [c]), rest. split; [rewrite <- app_assoc; reflexivity|].
    constructor; [|constructor; exact Hc].
    apply lang_Star_Sym. apply List.Forall_app in Hdot. exact (proj1 Hdot).
Qed.

Lemma password_tree_ok (lo hi : Z) (s : jsstring) :
  (0 <= lo <= hi)%Z ->
  matches (password_tree (Z.to_nat lo) (Z.to_nat hi)) s = true <->
  password_ok lo hi s.
Proof.
  intros [H0 Hle]. unfold password_tree.
  rewrite matches_lang, !lookahead_lang, lang_between_Sym by lia.
  unfold password_ok. split.
  - intros (Hd & Hl & Hlen & Hdot).
    split; [lia|]. split; [exact Hdot|].
    split; [apply (lang_prefix_with cs_digit s Hdot); exact Hd
           | apply (lang_prefix_with cs_letter s Hdot); exact Hl].
  - intros (Hlen & Hdot & Hd & Hl).
    split; [apply (lang_prefix_with cs_digit s Hdot); exact Hd|].
    split; [apply (lang_prefix_with cs_letter s Hdot); exact Hl|].
    split; [lia | exact Hdot].
Qed.

Lemma quantifier_count_iff (z : Z) :
  quantifier_count z = true <-> (0 <= z < 2147483647)%Z.
Proof.
  unfold quantifier_count. rewrite andb_true_iff, Z.leb_le, Z.ltb_lt. reflexivity.
Qed.

Lemma lang_one_inv (x : N) (s : jsstring) :
  lang (Sym (one_of [x])) s -> s = [x].
Proof.
  intros H. destruct (lang_Sym_inv _ _ H) as (c & -> & Hc).
  unfold in_charset, one_of, in_ranges in Hc. cbn in Hc.
  rewrite orb_false_r in Hc. apply andb_true_iff in Hc.
  destruct Hc as [H1 H2]. apply N.leb_le in H1, H2.
  f_equal. lia.
Qed.

(** A string that the e-mail pattern accepts has an [@] (code unit 64)
    and a [.] (code unit 46). *)
Lemma email_regex_at_and_dot (s : jsstring) :
  matches email_regex s = true -> In 64 s /\ In 46 s.
Proof.
  rewrite matches_lang. unfold email_regex. intros H.
  destruct (lang_Cat_inv _ _ _ H) as (l & r & -> & _ & H1).
  destruct (lang_Cat_inv _ _ _ H1) as (a & d & -> & Ha & Hd).
  change (chr "@") with (Sym (one_of [64])) in Ha.
  apply lang_one_inv in Ha. subst a.
  split; [rewrite !in_app_iff; cbn; tauto|].
  assert (Hdot : In 46 d); [|rewrite !in_app_iff; tauto].
  unfold email_domain in Hd. destruct (lang_Alt_inv _ _ _ Hd) as [Hip|Hdns].
  - destruct (lang_Cat_inv _ _ _ Hip) as (b & t1 & -> & _ & H2).
    destruct (lang_Cat_inv _ _ _ H2) as (o1 & t2 & -> & _ & H3).
    destruct (lang_Cat_inv _ _ _ H3) as (p & t3 & -> & Hp & _).
    change (chr ".") with (Sym (one_of [46])) in Hp.
    apply lang_one_inv in Hp. subst p.
    rewrite !in_app_iff. cbn. tauto.
  - destruct (lang_Cat_inv _ _ _ Hdns) as (labels & tail & -> & Hl & _).
    unfold plus in Hl at 1.
    destruct (lang_Cat_inv _ _ _ Hl) as (first & more & -> & Hf & _).
    destruct (lang_Cat_inv _ _ _ Hf) as (name & p & -> & _ & Hp).
    change (chr ".") with (Sym (one_of [46])) in Hp.
    apply lang_one_inv in Hp. subst p.
    rewrite !in_app_iff. cbn. tauto.
Qed.

Lemma string_or_nonempty (a : option jsstring) (b : jsstring) :
  b <> [] -> string_or a b <> [].
Proof. intros Hb. destruct a as [[|c s]|]; cbn; [exact Hb | discriminate | exact Hb]. Qed.

Section ValidatorAnswers.
Context {host : Host}.

Lemma password_message_nonempty (min max : number) :
  js "密碼請輸入" ++ number_ToString min ++ js "~" ++ number_ToString max
  ++ js "碼英數混合" <> [].
Proof.
  destruct (js "密碼請輸入") as [|c s] eqn:E; [vm_compute in E; discriminate E|].
  discriminate.
Qed.

(** The run of [passwordValidator] once its bounds are known to be the
    counts of a quantifier: the pattern is compiled, then the value
    converted, then tested. *)
Lemma passwordValidator_run (value : value) (o : ValidateOption.t)
    (w : world) (lo hi : Z) :
  number_or (ValidateOption.min o) (Fin 6) = Fin lo ->
  number_or (ValidateOption.max o) (Fin 30) = Fin hi ->
  quantifier_count lo = true ->
  quantifier_count hi = true ->
  passwordValidator value (Some o) w =
  if (lo <=? hi)%Z then
    match ToString value with
    | Return text =>
      (Return
         (if negb (matches (password_tree (Z.to_nat lo) (Z.to_nat hi)) text)
          then RString (string_or (ValidateOption.message o)
                          (js "密碼請輸入" ++ number_ToString (Fin lo) ++ js "~"
                           ++ number_ToString (Fin hi) ++ js "碼英數混合"))
          else RNull), w)
    | Throw e => (Throw e, w)
    end
  else (Throw SyntaxError, w).
Proof.
  intros Hmin Hmax Hlo Hhi. unfold passwordValidator. cbn [default from_option id].
  change (number_or (ValidateOption.min password_optionDefault) NaN) with (Fin 6).
  change (number_or (ValidateOption.max password_optionDefault) NaN) with (Fin 30).
  rewrite Hmin, Hmax. unfold password_regex. rewrite Hlo, Hhi. cbn [andb].
  unfold bind, lift_result, ret, throw, test_pattern.
  destruct (lo <=? hi)%Z; [|reflexivity].
  destruct (ToString value); reflexivity.
Qed.

(** X1: with bounds [0 <= lo <= hi < 2^31 - 1] in force (given, or the
    defaults 6 and 30), on a value that [String] converts to [text],
    [passwordValidator] neither throws nor touches the world, and accepts
    exactly when [text] has between [lo] and [hi] code units, no line
    terminator among them, a digit and a letter; otherwise it answers one
    non-empty message. *)
Theorem passwordValidator_accepts (value : value) (o : ValidateOption.t)
    (w : world) (lo hi : Z) (text : jsstring) :
  number_or (ValidateOption.min o) (Fin 6) = Fin lo ->
  number_or (ValidateOption.max o) (Fin 30) = Fin hi ->
  (0 <= lo <= hi)%Z ->
  (hi < 2147483647)%Z ->
  ToString value = Return text ->
  exists r,
    passwordValidator value (Some o) w = (Return r, w)
    /\ (r = RNull <-> password_ok lo hi text)
    /\ (r <> RNull -> exists msg, r = RString msg /\ msg <> []).
Proof.
  intros Hmin Hmax Hb Hhi Ht.
  rewrite (passwordValidator_run value o w lo hi Hmin Hmax)
    by (apply quantifier_count_iff; lia).
  rewrite (proj2 (Z.leb_le lo hi)) by lia. rewrite Ht.
  pose proof (password_tree_ok lo hi text Hb) as Hm.
  destruct (matches (password_tree (Z.to_nat lo) (Z.to_nat hi)) text) eqn:E;
    cbn [negb].
  - exists RNull. split; [reflexivity|]. split; [|congruence].
    split; [intros _; apply Hm; reflexivity | reflexivity].
  - eexists. split; [reflexivity|]. split.
    + split; [discriminate|]. intros Hok. apply Hm in Hok. discriminate Hok.
    + intros _. eexists. split; [reflexivity|].
      apply string_or_nonempty, password_message_nonempty.
Qed.

(** X2: with both bounds in force between [0] and [2^31 - 2], a lower
    bound that exceeds the upper one makes [passwordValidator] throw a
    [SyntaxError] whatever the value, before the value is converted: so
    does [{max: 5}] alone, against the default lower bound 6, and
    [{min: 31}] alone, against the default upper bound 30.  With the
    bounds in order the pattern compiles, and the call throws exactly
    when [String(value)] does, with its error. *)
Theorem passwordValidator_bounds_out_of_order (value : value)
    (o : ValidateOption.t) (w : world) (lo hi : Z) :
  number_or (ValidateOption.min o) (Fin 6) = Fin lo ->
  number_or (ValidateOption.max o) (Fin 30) = Fin hi ->
  (0 <= lo < 2147483647)%Z ->
  (0 <= hi < 2147483647)%Z ->
  ((hi < lo)%Z -> passwordValidator value (Some o) w = (Throw SyntaxError, w))
  /\ ((lo <= hi)%Z ->
      match ToString value with
      | Return _ => exists r, passwordValidator value (Some o) w = (Return r, w)
      | Throw e => passwordValidator value (Some o) w = (Throw e, w)
      end).
Proof.
  intros Hmin Hmax Hlo Hhi.
  rewrite (passwordValidator_run value o w lo hi Hmin Hmax)
    by (apply quantifier_count_iff; assumption).
  split; intros H.
  - rewrite (proj2 (Z.leb_gt lo hi)) by exact H. reflexivity.
  - rewrite (proj2 (Z.leb_le lo hi)) by exact H.
    destruct (ToString value); [eexists|]; reflexivity.
Qed.

(** X3: [emailValidator] does not touch the world.  It throws exactly
    when [String(value)] does, with its error; otherwise it answers
    [null] or one non-empty message, and [null] only for a value whose
    string form has an [@] and a [.]. *)
Theorem emailValidator_answer (value : value) (option : option ValidateOption.t)
    (w : world) :
  match ToString value with
  | Return text =>
    exists r,
      emailValidator value option w = (Return r, w)
      /\ (r = RNull -> In 64 text /\ In 46 text)
      /\ (r <> RNull -> exists msg, r = RString msg /\ msg <> [])
  | Throw e => emailValidator value option w = (Throw e, w)
  end.
Proof.
  unfold emailValidator, bind, lift_result, ret.
  destruct (ToString value) as [text|e]; [|reflexivity].
  destruct (matches email_regex text) eqn:E; cbn [negb].
  - exists RNull. split; [reflexivity|]. split; [|congruence].
    intros _. apply email_regex_at_and_dot. exact E.
  - eexists. split; [reflexivity|]. split; [discriminate|].
    intros _. eexists. split; [reflexivity|].
    apply string_or_nonempty. vm_compute. discriminate.
Qed.

End ValidatorAnswers.

Lemma passwordValidator_accepts_witness :
  exists r,
    @passwordValidator demo (VString (js "abc123"))
      (Some (ValidateOption.set_max (Some (Fin 12)) ValidateOption.empty)) demo_world
    = (Return r, demo_world)
    /\ (r = RNull <-> password_ok 6 12 (js "abc123"))
    /\ (r <> RNull -> exists msg, r = RString msg /\ msg <> []).
Proof.
  apply (@passwordValidator_accepts demo (VString (js "abc123"))
           (ValidateOption.set_max (Some (Fin 12)) ValidateOption.empty)
           demo_world 6 12 (js "abc123")).
  - reflexivity.
  - reflexivity.
  - lia.
  - lia.
  - reflexivity.
Defined.

Lemma passwordValidator_bounds_out_of_order_witness :
  @passwordValidator demo (VObject true [(js "toString", VNull)])
    (Some (ValidateOption.set_max (Some (Fin 5)) ValidateOption.empty)) demo_world
  = (Throw SyntaxError, demo_world).
Proof.
  refine (proj1 (@passwordValidator_bounds_out_of_order demo
                   (VObject true [(js "toString", VNull)])
                   (ValidateOption.set_max (Some (Fin 5)) ValidateOption.empty)
                   demo_world 6 5 eq_refl eq_refl _ _) _); lia.
Defined.

(** ** The image validator, check by check *)

Section ImageChecks.
Context {host : Host}.

Lemma dimensions_guard_unset (o : ValidateOption.t) :
  dimensions_unset o ->
  option_truthy (ValidateOption.minWidth o)
  || option_truthy (ValidateOption.maxWidth o)
  || option_truthy (ValidateOption.minHeight o)
  || option_truthy (ValidateOption.maxHeight o) = false.
Proof. intros (-> & -> & -> & ->). reflexivity. Qed.

(** X4: on a [Blob], with an option that sets no dimension bound (absent
    or [0]), no size and no type, the image validator answers [null]
    and leaves the world as it was: no helper is called, no warning
    emitted, no pattern compiled. *)
Theorem imageValidator_nothing_set (b : Blob) (o : ValidateOption.t) (w : world) :
  dimensions_unset o ->
  option_truthy (ValidateOption.size o) = false ->
  type_truthy (ValidateOption.type o) = false ->
  imageValidator (VBlob b) (Some o) w = (Return RNull, w).
Proof.
  intros Hd Hs Ht. unfold imageValidator. cbn [default from_option id].
  rewrite (dimensions_guard_unset o Hd), Hs, Ht. reflexivity.
Qed.

(** X5: when a dimension bound is set and a helper rejects, the image
    validator rejects with the helper's reason: after [blobToBase64]
    rejects, [urlToImageElement] is not called; after either rejects, the
    size and type checks are not run. *)
Theorem imageValidator_helper_rejects (b : Blob) (o : ValidateOption.t)
    (w : world) (e : exn) :
  option_truthy (ValidateOption.minWidth o)
  || option_truthy (ValidateOption.maxWidth o)
  || option_truthy (ValidateOption.minHeight o)
  || option_truthy (ValidateOption.maxHeight o) = true ->
  (blobToBase64 b = Throw e ->
   imageValidator (VBlob b) (Some o) w
   = (Throw e, mkWorld (trace w ++ [CallBlobToBase64 b]) (patterns w)))
  /\ (forall url, blobToBase64 b = Return url -> urlToImageElement url = Throw e ->
      imageValidator (VBlob b) (Some o) w
      = (Throw e,
         mkWorld ((trace w ++ [CallBlobToBase64 b]) ++ [CallUrlToImageElement url])
           (patterns w))).
Proof.
  intros Hg. split.
  - intros Hb. unfold imageValidator. cbn [default from_option id]. rewrite Hg.
    unfold bind, emit, lift_result. cbn [trace patterns]. rewrite Hb. reflexivity.
  - intros url Hb Hu. unfold imageValidator. cbn [default from_option id]. rewrite Hg.
    unfold bind, emit, lift_result. cbn [trace patterns]. rewrite Hb.
    cbn [trace patterns]. rewrite Hu. reflexivity.
Qed.

(** X6: with a size alone set, the image validator calls the size parser
    once; if the parser answers [NaN] it warns once and answers [null];
    otherwise it answers the size message exactly when the size of the
    [Blob] exceeds the parsed number of bytes. *)
Theorem imageValidator_size_only (b : Blob) (o : ValidateOption.t) (w : world)
    (size : number) :
  dimensions_unset o ->
  type_truthy (ValidateOption.type o) = false ->
  ValidateOption.size o = Some size ->
  number_truthy size = true ->
  imageValidator (VBlob b) (Some o) w =
  if isNaN (transformFileSize size) then
    (Return RNull,
     mkWorld
       ((trace w ++ [CallTransformFileSize size]) ++
        [Warning (js "utils[function validImage]: The option property size is not valid variable.")])
       (patterns w))
  else
    (Return
       (if number_gt (Fin (Z.of_N (blob_size b))) (transformFileSize size)
        then RList [image_message o MessageOption.size MessageOption.size]
        else RNull),
     mkWorld (trace w ++ [CallTransformFileSize size]) (patterns w)).
Proof.
  intros Hd Ht Hs Hn. unfold imageValidator. cbn [default from_option id].
  rewrite (dimensions_guard_unset o Hd), Ht, Hs. cbn [option_truthy]. rewrite Hn.
  cbn [default from_option id]. unfold bind, emit, ret, handleWarningLog, emit.
  cbn [trace patterns].
  destruct (isNaN (transformFileSize size)); [reflexivity|].
  destruct (number_gt (Fin (Z.of_N (blob_size b))) (transformFileSize size));
    reflexivity.
Qed.

(** X7: a [type] given as an empty list allows nothing: every [Blob]
    gets the type message, and no pattern is compiled. *)
Theorem imageValidator_empty_type_list (b : Blob) (o : ValidateOption.t) (w : world) :
  dimensions_unset o ->
  option_truthy (ValidateOption.size o) = false ->
  ValidateOption.type o = Some (TypeList []) ->
  imageValidator (VBlob b) (Some o) w
  = (Return (RList [image_message o MessageOption.type MessageOption.type]), w).
Proof.
  intros Hd Hs Ht. unfold imageValidator. cbn [default from_option id].
  rewrite (dimensions_guard_unset o Hd), Hs, Ht. reflexivity.
Qed.

End ImageChecks.

Lemma imageValidator_nothing_set_witness :
  @imageValidator demo (VBlob (mkBlob 2048 (js "image/png")))
    (Some ValidateOption.empty) demo_world
  = (Return RNull, demo_world).
Proof.
  apply (@imageValidator_nothing_set demo (mkBlob 2048 (js "image/png"))
           ValidateOption.empty demo_world).
  - repeat split; reflexivity.
  - reflexivity.
  - reflexivity.
Defined.

Lemma imageValidator_helper_rejects_witness :
  @imageValidator undecodable_host (VBlob (mkBlob 2048 (js "image/png")))
    (Some (ValidateOption.make None None None None None None None None
             (Some (Fin 200)) None None None))
    (@mkWorld undecodable_host [] tt)
  = (Throw (Rejected (js "decode")),
     @mkWorld undecodable_host
       [CallBlobToBase64 (mkBlob 2048 (js "image/png"));
        CallUrlToImageElement (js "data:image/png;base64,")] tt).
Proof.
  apply (proj2 (@imageValidator_helper_rejects undecodable_host
                  (mkBlob 2048 (js "image/png"))
                  (ValidateOption.make None None None None None None None None
                     (Some (Fin 200)) None None None)
                  (@mkWorld undecodable_host [] tt) (Rejected (js "decode"))
                  eq_refl)
           (js "data:image/png;base64,")).
  - vm_compute. reflexivity.
  - reflexivity.
Defined.

Lemma imageValidator_size_only_witness :
  @imageValidator demo (VBlob (mkBlob 2048 (js "image/png")))
    (Some (ValidateOption.make None None None None None (Some (Fin 1000)) None
             None None None None None)) demo_world
  = (Return (RList [js "檔案大小超出限制"]),
     @mkWorld demo [CallTransformFileSize (Fin 1000)] tt).
Proof.
  rewrite (@imageValidator_size_only demo (mkBlob 2048 (js "image/png"))
             (ValidateOption.make None None None None None (Some (Fin 1000)) None
                None None None None None) demo_world (Fin 1000)).
  - vm_compute. reflexivity.
  - repeat split; reflexivity.
  - reflexivity.
  - reflexivity.
  - reflexivity.
Defined.

Lemma imageValidator_empty_type_list_witness :
  @imageValidator demo (VBlob (mkBlob 2048 (js "image/png")))
    (Some (ValidateOption.make None None None None None None (Some (TypeList []))
             None None None None None)) demo_world
  = (Return (RList [js "檔案類型錯誤"]), demo_world).
Proof.
  rewrite (@imageValidator_empty_type_list demo (mkBlob 2048 (js "image/png"))
             (ValidateOption.make None None None None None None (Some (TypeList []))
                None None None None None) demo_world).
  - vm_compute. reflexivity.
  - repeat split; reflexivity.
  - reflexivity.
  - reflexivity.
Defined.

(** ** The answers of the built-in validators *)

Section BuiltinAnswers.
Context {host : Host}.

Lemma image_message_nonempty (opt : ValidateOption.t)
    (field fallback : MessageOption.t -> option jsstring) :
  (exists c s, fallback image_messageOption = Some (c :: s)) ->
  image_message opt field fallback <> [].
Proof.
  intros (c & s & E). unfold image_message. apply string_or_nonempty.
  rewrite E. discriminate.
Qed.

Lemma push_if_ok (c : bool) (msg : jsstring) (errors : list jsstring) :
  msg <> [] -> Forall (fun s => s <> []) errors ->
  Forall (fun s => s <> []) (push_if c msg errors).
Proof.
  intros Hm He. unfold push_if. destruct c; [|exact He].
  apply List.Forall_app. split; [exact He | constructor; [exact Hm | constructor]].
Qed.

Lemma image_dimensions_ok (opt : ValidateOption.t) (img : Image)
    (errors : list jsstring) :
  Forall (fun s => s <> []) errors ->
  Forall (fun s => s <> []) (image_dimensions opt img errors).
Proof.
  intros He. unfold image_dimensions.
  repeat (apply push_if_ok;
          [apply image_message_nonempty; eexists _, _; vm_compute; reflexivity|]).
  exact He.
Qed.

Lemma imageValidator_answer_ok (value : value) (option : option ValidateOption.t)
    (w w' : world) (r : StringResult) :
  imageValidator value option w = (Return r, w') -> answer_ok r.
Proof.
  unfold imageValidator. intros H.
  apply bind_Return in H. destruct H as (errors & w1 & Herr & Hr).
  apply ret_Return in Hr. subst r.
  assert (Hok : Forall (fun s => s <> []) errors).
  { destruct value as [| |b|n|s|items|plain props|blob];
      try (apply bind_Return in Herr; destruct Herr as (? & ? & _ & Herr);
           apply ret_Return in Herr; subst errors; constructor).
    apply bind_Return in Herr. destruct Herr as (e1 & w2 & H1 & Herr).
    apply bind_Return in Herr. destruct Herr as (e2 & w3 & H2 & H3).
    assert (Hok1 : Forall (fun s => s <> []) e1).
    { destruct (_ || _) in H1.
      - apply bind_Return in H1. destruct H1 as (? & ? & _ & H1).
        apply bind_Return in H1. destruct H1 as (url & ? & _ & H1).
        apply bind_Return in H1. destruct H1 as (? & ? & _ & H1).
        apply bind_Return in H1. destruct H1 as (img & ? & _ & H1).
        apply ret_Return in H1. subst e1. apply image_dimensions_ok. constructor.
      - apply ret_Return in H1. subst e1. constructor. }
    assert (Hok2 : Forall (fun s => s <> []) e2).
    { destruct (option_truthy _) in H2.
      - apply bind_Return in H2. destruct H2 as (? & ? & _ & H2).
        destruct (isNaN _) in H2.
        + apply bind_Return in H2. destruct H2 as (? & ? & _ & H2).
          apply ret_Return in H2. subst e2. exact Hok1.
        + apply ret_Return in H2. subst e2. apply push_if_ok; [|exact Hok1].
          apply image_message_nonempty. eexists _, _. vm_compute. reflexivity.
      - apply ret_Return in H2. subst e2. exact Hok1. }
    destruct (type_truthy _) in H3.
    - apply bind_Return in H3. destruct H3 as (ok & ? & _ & H3).
      apply ret_Return in H3. subst errors. apply push_if_ok; [|exact Hok2].
      apply image_message_nonempty. eexists _, _. vm_compute. reflexivity.
    - apply ret_Return in H3. subst errors. exact Hok2. }
  destruct errors as [|s l]; [exact I|]. split; [discriminate | exact Hok].
Qed.

(** X8: every validator of the built-in table keeps the contract of an
    answer: whenever it returns, it returns [null], a non-empty string,
    or a non-empty list of non-empty strings; an empty custom message
    gives way to the default one. *)
Theorem builtin_answers_ok (name : jsstring) (handler : ValidatorHandler)
    (value : value) (option : option ValidateOption.t) (w w' : world)
    (r : StringResult) :
  builtin_validators !! name = Some handler ->
  handler value option w = (Return r, w') ->
  answer_ok r.
Proof.
  intros Hin Hr. unfold builtin_validators, ValidatorHandlerList in Hin.
  apply elem_of_list_to_map_2 in Hin.
  repeat (apply elem_of_cons in Hin; destruct Hin as [Hin|Hin]);
    try (apply elem_of_nil in Hin; destruct Hin);
    injection Hin as _ ->.
  - unfold isEmptyValidator, ret in Hr. injection Hr as <- _.
    destruct (isEmpty value); [|exact I]. cbn [answer_ok].
    apply string_or_nonempty. vm_compute. discriminate.
  - unfold emailValidator in Hr.
    apply bind_Return in Hr. destruct Hr as (text & w1 & _ & Hr).
    apply ret_Return in Hr. subst r.
    destruct (negb _); [|exact I]. cbn [answer_ok].
    apply string_or_nonempty. vm_compute. discriminate.
  - unfold passwordValidator in Hr.
    apply bind_Return in Hr. destruct Hr as (reg & w1 & _ & Hr).
    apply bind_Return in Hr. destruct Hr as (text & w2 & _ & Hr).
    apply bind_Return in Hr. destruct Hr as (hit & w3 & _ & Hr).
    apply ret_Return in Hr. subst r.
    destruct (negb _); [|exact I]. cbn [answer_ok].
    apply string_or_nonempty, password_message_nonempty.
  - unfold equalValidator, ret in Hr. injection Hr as <- _.
    destruct (negb _); [|exact I]. cbn [answer_ok].
    apply string_or_nonempty. vm_compute. discriminate.
  - exact (imageValidator_answer_ok _ _ _ _ _ Hr).
Qed.

End BuiltinAnswers.

Lemma builtin_answers_ok_witness :
  answer_ok (RString (js "輸入資料不相等")).
Proof.
  apply (@builtin_answers_ok demo (js "equal") (@equalValidator demo)
           (VString (js "x")) (Some ValidateOption.empty) demo_world demo_world).
  - reflexivity.
  - vm_compute. reflexivity.
Defined.

(** ** The scans of the text predicates *)

Section TextScans.
Context {host : Host}.

(** X9: the scan stops at the first pattern that matches: when the
    patterns up to and including [p] make [isTextIncludes] answer true,
    whatever follows [p] in the list is neither compiled nor tested, so
    it changes neither the answer nor the world, and cannot make the call
    throw. *)
Theorem isTextIncludes_stops_at_hit (pre rest : list pattern) (p : pattern)
    (text : jsstring) (w w' : world) :
  isTextIncludes (pre ++ [p]) text w = (Return true, w') ->
  isTextIncludes (pre ++ p :: rest) text w = (Return true, w').
Proof.
  revert w. induction pre as [|q pre IH]; intros w.
  - cbn [app isTextIncludes]. unfold bind, ret. destruct p as [reg|s].
    + destruct (test reg text w) as [[[|]|e] w1]; intros H;
        [exact H | discriminate H | discriminate H].
    + destruct (new_RegExp s w) as [[reg|e] w1]; [|intros H; discriminate H].
      destruct (test reg text w1) as [[[|]|e] w2]; intros H;
        [exact H | discriminate H | discriminate H].
  - cbn [app isTextIncludes]. unfold bind. destruct q as [reg|s].
    + destruct (test reg text w) as [[[|]|e] w1]; intros H;
        [exact H | exact (IH w1 H) | exact H].
    + destruct (new_RegExp s w) as [[reg|e] w1]; [|intros H; exact H].
      destruct (test reg text w1) as [[[|]|e] w2]; intros H;
        [exact H | exact (IH w2 H) | exact H].
Qed.

(** X10: when compiling and testing the patterns of the list neither
    throws nor changes the state of the engine, [isTextIncludes] answers
    whether some pattern of the list matches the text, [isTextExcludes]
    whether none does, and both leave the world as it was; in particular
    the empty list includes nothing and excludes everything. *)
Theorem isTextIncludes_some_pattern (hits : pattern -> bool)
    (data : list pattern) (text : jsstring) :
  (forall p, In p data -> forall w,
     match p with
     | PRegExp reg => test reg text w = (Return (hits p), w)
     | PString s =>
       exists reg, new_RegExp s w = (Return reg, w) /\
                   test reg text w = (Return (hits p), w)
     end) ->
  forall w,
    isTextIncludes data text w = (Return (existsb hits data), w)
    /\ isTextExcludes data text w = (Return (negb (existsb hits data)), w).
Proof.
  intros H w.
  assert (Hi : isTextIncludes data text w = (Return (existsb hits data), w)).
  { induction data as [|p data IH]; [reflexivity|].
    pose proof (H p (or_introl eq_refl) w) as Hp.
    assert (IH' := IH (fun q Hq => H q (or_intror Hq))).
    cbn [isTextIncludes existsb]. unfold bind. destruct p as [reg|s].
    - rewrite Hp. destruct (hits (PRegExp reg)); [reflexivity | exact IH'].
    - destruct Hp as (reg & -> & ->).
      destruct (hits (PString s)); [reflexivity | exact IH']. }
  split; [exact Hi|]. rewrite isTextExcludes_scan, Hi. reflexivity.
Qed.

End TextScans.

Lemma isTextIncludes_stops_at_hit_witness :
  @isTextIncludes demo
    ([@PString demo (js "text")] ++
     @PString demo (js "image") :: [@PString demo (js "(")])
    (js "image/png") demo_world
  = (Return true, demo_world).
Proof.
  apply (@isTextIncludes_stops_at_hit demo [@PString demo (js "text")]
           [@PString demo (js "(")] (@PString demo (js "image"))
           (js "image/png") demo_world demo_world).
  vm_compute. reflexivity.
Defined.

Lemma isTextIncludes_some_pattern_witness :
  @isTextIncludes demo [@PString demo (js "text"); @PString demo (js "image")]
    (js "image/png") demo_world
  = (Return true, demo_world)
  /\ @isTextExcludes demo [@PString demo (js "text"); @PString demo (js "image")]
       (js "image/png") demo_world
     = (Return false, demo_world).
Proof.
  apply (@isTextIncludes_some_pattern demo
           (fun p => match p with
                     | PString s => matches (search (literal s)) (js "image/png")
                     | PRegExp reg => matches reg (js "image/png")
                     end)
           [@PString demo (js "text"); @PString demo (js "image")]
           (js "image/png")).
  intros p [<-|[<-|[]]] [t []]; eexists; split; reflexivity.
Defined.

(** ** Field rules and the result of [validate] *)

Section FieldResults.
Context {host : Host}.

Lemma push_messages_app (r : StringResult) (errors : list jsstring) :
  push_messages r errors = errors ++ push_messages r [].
Proof.
  destruct r as [|[|c s]|l]; cbn [push_messages app];
    [rewrite app_nil_r | rewrite app_nil_r | |]; reflexivity.
Qed.

Lemma validateField_loop_messages (table : ValidatorHandlerList) (value : value)
    (answers : jsstring -> option ValidateOption.t -> StringResult)
    (options : ValidateField) :
  (forall type typeOption, In (type, typeOption) options ->
     exists handler : ValidatorHandler, lookup_handler table type = Some handler /\
       forall w, handler value typeOption w = (Return (answers type typeOption), w)) ->
  forall errors w,
    validateField_loop table value options errors w
    = (Return (errors ++ flat_map (fun p => push_messages (answers (fst p) (snd p)) [])
                           options), w).
Proof.
  induction options as [|[type typeOption] rest IH]; intros H errors w.
  - cbn. rewrite app_nil_r. reflexivity.
  - destruct (H type typeOption (or_introl eq_refl)) as (handler & Hh & Hr).
    cbn [validateField_loop]. rewrite Hh. unfold bind. rewrite Hr.
    rewrite IH by (intros t o Hin; apply H; right; exact Hin).
    cbn [flat_map fst snd]. rewrite (push_messages_app _ errors), <- app_assoc.
    reflexivity.
Qed.

(** X11: when the validators that a field rule names are found, in the
    table or in what the table inherits, and answer without effect,
    [validateField] leaves the world as it was and answers their messages
    in the order in which [for ... in] visits the names (those that are
    array indices first, in ascending order, then the others as
    declared), the empty ones dropped, or [null] when nothing is left. *)
Theorem validateField_messages (this : Validator) (value : value)
    (options : ValidateField) (σ : store)
    (answers : jsstring -> option ValidateOption.t -> StringResult) :
  (forall type typeOption, In (type, typeOption) options ->
     exists handler : ValidatorHandler,
       lookup_handler (table_of σ this) type = Some handler /\
       forall w, handler value typeOption w = (Return (answers type typeOption), w)) ->
  forall w,
    validateField this value (Some options) σ w
    = (Return
         match List.filter nonempty
                 (flat_map (fun p => push_messages (answers (fst p) (snd p)) [])
                    (for_in_order options)) with
         | [] => None
         | l => Some l
         end, w).
Proof.
  intros H w. unfold validateField, bind.
  rewrite (validateField_loop_messages _ value answers (for_in_order options))
    by (intros type typeOption Hin; apply H, in_for_in_order; exact Hin).
  cbn [app]. unfold ret. destruct (List.filter nonempty _); reflexivity.
Qed.

Lemma lookup_assign_eq {A : Type} (key : jsstring) (a : A)
    (obj : list (jsstring * A)) :
  lookup_key key (assign_key key a obj) = Some a.
Proof.
  induction obj as [|[k b] rest IH]; cbn [assign_key lookup_key]; unfold jsstring_eqb.
  - rewrite bool_decide_eq_true_2 by reflexivity. reflexivity.
  - case_bool_decide as E; cbn [lookup_key]; unfold jsstring_eqb.
    + rewrite bool_decide_eq_true_2 by exact E. reflexivity.
    + rewrite bool_decide_eq_false_2 by exact E. exact IH.
Qed.

Lemma lookup_assign_ne {A : Type} (key key' : jsstring) (a : A)
    (obj : list (jsstring * A)) :
  key <> key' -> lookup_key key' (assign_key key a obj) = lookup_key key' obj.
Proof.
  intros Hne.
  induction obj as [|[k b] rest IH]; cbn [assign_key lookup_key]; unfold jsstring_eqb.
  - rewrite bool_decide_eq_false_2 by exact Hne. reflexivity.
  - case_bool_decide as E; cbn [lookup_key]; unfold jsstring_eqb.
    + subst k. rewrite bool_decide_eq_false_2 by exact Hne. reflexivity.
    + case_bool_decide; [reflexivity | exact IH].
Qed.

Lemma lookup_key_cons {A : Type} (k key : jsstring) (a : A)
    (obj : list (jsstring * A)) :
  is_Some (lookup_key key ((k, a) :: obj)) <->
  k = key \/ is_Some (lookup_key key obj).
Proof.
  cbn [lookup_key]. unfold jsstring_eqb. case_bool_decide as E.
  - split; [intros _; left; exact E | intros _; eexists; reflexivity].
  - split; [intros H; right; exact H | intros [H|H]; [contradiction | exact H]].
Qed.

(** The loop of [validate]: the keys it adds are the fields that have a
    rule and whose assignment adds a property, and every list it stores
    is non-empty. *)
Lemma validate_loop_fields (this : Validator) (σ : store)
    (opt : ValidatorValidOption) (fields : list (jsstring * value)) :
  forall (errors0 errors : ErrorMessages) (w w' : world),
    validate_loop this σ opt fields errors0 w = (Return errors, w') ->
    (forall k, is_Some (lookup_key k errors) <->
               is_Some (lookup_key k errors0) \/
               (sets_prototype k = false /\ is_Some (lookup_key k fields) /\
                is_Some (lookup_rule k opt)))
    /\ ((forall k l, lookup_key k errors0 = Some (Some l) ->
           l <> [] /\ Forall (fun s => s <> []) l) ->
        forall k l, lookup_key k errors = Some (Some l) ->
           l <> [] /\ Forall (fun s => s <> []) l).
Proof.
  induction fields as [|[key v] rest IH]; intros errors0 errors w w' H.
  - cbn in H. injection H as <- _. split; [|intros H0; exact H0].
    intros k. split; [intros Hk; left; exact Hk|].
    intros [Hk|(_ & Hk & _)]; [exact Hk | destruct Hk as [x Hx]; discriminate Hx].
  - cbn [validate_loop] in H.
    destruct (lookup_rule key opt) as [rule|] eqn:Erule.
    + apply bind_Return in H. destruct H as (r & w1 & Hr & H).
      apply IH in H. destruct H as [Hkeys Hok].
      unfold assign_result in Hkeys, Hok.
      destruct (sets_prototype key) eqn:Ep.
      * split; [|exact Hok].
        intros k. rewrite Hkeys, lookup_key_cons. split.
        -- intros [Hk|(Hp & Hk & Ho)]; [left; exact Hk|].
           right. split; [exact Hp|]. split; [right; exact Hk | exact Ho].
        -- intros [Hk|(Hp & [<-|Hk] & Ho)]; [left; exact Hk | congruence |].
           right. split; [exact Hp|]. split; assumption.
      * split.
        -- intros k. rewrite Hkeys, lookup_key_cons.
           destruct (decide (key = k)) as [<-|Hne].
           ++ rewrite lookup_assign_eq, Erule. split.
              ** intros _. right. split; [exact Ep|].
                 split; [left; reflexivity | eexists; reflexivity].
              ** intros _. left. eexists; reflexivity.
           ++ rewrite (lookup_assign_ne key k r errors0 Hne). tauto.
        -- intros H0. apply Hok. intros k l Hk.
           destruct (decide (key = k)) as [<-|Hne].
           ++ rewrite lookup_assign_eq in Hk. injection Hk as ->.
              exact (validateField_answer _ _ _ _ _ _ _ Hr l eq_refl).
           ++ rewrite (lookup_assign_ne key k r errors0 Hne) in Hk. exact (H0 k l Hk).
    + apply IH in H. destruct H as [Hkeys Hok]. split; [|exact Hok].
      intros k. rewrite Hkeys, lookup_key_cons. split.
      * intros [Hk|(Hp & Hk & Ho)]; [left; exact Hk|].
        right. split; [exact Hp|]. split; [right; exact Hk | exact Ho].
      * intros [Hk|(Hp & [<-|Hk] & Ho)]; [left; exact Hk | |].
        -- rewrite Erule in Ho. destruct Ho as [x Hx]. discriminate Hx.
        -- right. split; [exact Hp|]. split; assumption.
Qed.

(** X12: whenever [validate] returns, the fields of its result are the
    own fields of the model for which the rule set in force (the
    argument, or else the constructor's) has a rule, of its own or
    inherited from [Object.prototype], but for a field named [__proto__]
    where [Object.prototype] has that accessor (assigning to it adds no
    field); each of them holds [null] or a non-empty list of non-empty
    messages, and with no rule set the result is empty. *)
Theorem validate_fields (this : Validator) (options : option ValidatorValidOption)
    (σ : store) (w w' : world) (errors : ErrorMessages) :
  validate this options σ w = (Return errors, w') ->
  (forall k, is_Some (lookup_key k errors) <->
             sets_prototype k = false /\
             is_Some (lookup_key k (own_entries (model this))) /\
             exists rules, rules_in_force this options = Some rules /\
                           is_Some (lookup_rule k rules))
  /\ (forall k l, lookup_key k errors = Some (Some l) ->
        l <> [] /\ Forall (fun s => s <> []) l)
  /\ (rules_in_force this options = None -> errors = []).
Proof.
  unfold validate. intros H.
  apply bind_Return in H. destruct H as (? & w1 & _ & H).
  apply bind_Return in H. destruct H as (? & w2 & _ & H).
  fold (rules_in_force this options) in H.
  destruct (rules_in_force this options) as [rules|].
  - apply validate_loop_fields in H. destruct H as [Hkeys Hok].
    split; [|split; [|discriminate]].
    + intros k. rewrite Hkeys. split.
      * intros [[y Hy]|(Hp & Hk & Hr)]; [discriminate Hy|].
        split; [exact Hp|]. split; [exact Hk|].
        exists rules. split; [reflexivity | exact Hr].
      * intros (Hp & Hk & rules' & E & Hr). injection E as <-.
        right. split; [exact Hp|]. split; assumption.
    + apply Hok. intros k l Hk. discriminate Hk.
  - apply ret_Return in H. subst errors.
    split; [|split; [|reflexivity]].
    + intros k. split; [intros [y Hy]; discriminate Hy|].
      intros (_ & _ & rules & E & _). discriminate E.
    + intros k l Hk. discriminate Hk.
Qed.

(** The loop of [validate] on an empty rule set: the only rules are the
    inherited ones, which name no validator. *)
Lemma validate_loop_no_rules (this : Validator) (σ : store)
    (fields : list (jsstring * value)) (errors : ErrorMessages) :
  Forall (fun p => snd p = None /\ is_Some (Object_prototype (fst p))) errors ->
  exists errors',
    (forall w, validate_loop this σ [] fields errors w = (Return errors', w))
    /\ Forall (fun p => snd p = None /\ is_Some (Object_prototype (fst p))) errors'
    /\ ((forall k v, In (k, v) fields -> Object_prototype k = None) ->
        errors' = errors).
Proof.
  revert errors. induction fields as [|[key v] rest IH]; intros errors He.
  - exists errors. split; [intros w; reflexivity|]. split; [exact He | reflexivity].
  - cbn [validate_loop]. unfold lookup_rule. cbn [lookup_key].
    destruct (Object_prototype key) as [member|] eqn:E.
    + assert (He' : Forall (fun p => snd p = None /\ is_Some (Object_prototype (fst p)))
                      (assign_result key None errors)).
      { unfold assign_result. destruct (sets_prototype key); [exact He|].
        apply assign_key_all; [|exact He]. cbn [fst snd].
        split; [reflexivity | rewrite E; eexists; reflexivity]. }
      destruct (IH _ He') as (errors' & Hrun & Hok & _).
      exists errors'. split; [|split; [exact Hok|]].
      * intros w. exact (Hrun w).
      * intros Hnone. rewrite (Hnone key v (or_introl eq_refl)) in E. discriminate E.
    + destruct (IH _ He) as (errors' & Hrun & Hok & Hsame).
      exists errors'. split; [exact Hrun|]. split; [exact Hok|].
      intros Hnone. apply Hsame. intros k x Hin. apply (Hnone k x). right. exact Hin.
Qed.

Lemma validate_warns (this : Validator) (options : option ValidatorValidOption)
    (σ : store) (w : world) (errors : ErrorMessages) :
  isEmpty (value_of_rules (rules_in_force this options)) = true ->
  (forall w0,
     match rules_in_force this options with
     | Some opt => validate_loop this σ opt (own_entries (model this)) []
     | None => ret []
     end w0 = (Return errors, w0)) ->
  validate this options σ w =
  (Return errors,
   mkWorld
     ((trace w ++
       (if isEmpty (model this)
        then [Warning (js "utils[function validate]: The form property is all empty.")]
        else [])) ++
      [Warning (js "utils[function validate]: The options property is all empty.")])
     (patterns w)).
Proof.
  intros He Hl. unfold validate. fold (rules_in_force this options).
  rewrite He. unfold bind.
  destruct (isEmpty (model this)); unfold handleWarningLog, emit, ret;
    cbn [trace patterns]; rewrite Hl, ?app_nil_r; reflexivity.
Qed.

(** X13: without any rule set, or with an empty one, [validate] runs no
    validator and does not throw: it warns that the options are empty
    (after warning that the form is empty, if the model is) and returns.
    Without a rule set the result is empty.  With an empty one, every
    field of the result holds [null] and bears the name of a member of
    [Object.prototype], so the result is empty when no own field of the
    model bears such a name. *)
Theorem validate_without_rules (this : Validator)
    (options : option ValidatorValidOption) (σ : store) (w : world) :
  (rules_in_force this options = None ->
   validate this options σ w =
   (Return [],
    mkWorld
      ((trace w ++
        (if isEmpty (model this)
         then [Warning (js "utils[function validate]: The form property is all empty.")]
         else [])) ++
       [Warning (js "utils[function validate]: The options property is all empty.")])
      (patterns w)))
  /\ (rules_in_force this options = Some [] ->
      exists errors,
        validate this options σ w =
        (Return errors,
         mkWorld
           ((trace w ++
             (if isEmpty (model this)
              then [Warning (js "utils[function validate]: The form property is all empty.")]
              else [])) ++
            [Warning (js "utils[function validate]: The options property is all empty.")])
           (patterns w))
        /\ Forall (fun p => snd p = None /\ is_Some (Object_prototype (fst p))) errors
        /\ ((forall k v, In (k, v) (own_entries (model this)) ->
               Object_prototype k = None) ->
            errors = [])).
Proof.
  split; intros Hr.
  - apply validate_warns; rewrite Hr; [reflexivity | intros w0; reflexivity].
  - destruct (validate_loop_no_rules this σ (own_entries (model this)) [])
      as (errors & Hrun & Hok & Hnone); [constructor|].
    exists errors. split; [|split; assumption].
    apply validate_warns; rewrite Hr; [reflexivity | exact Hrun].
Qed.

End FieldResults.

Lemma validateField_messages_witness :
  @validateField demo (fst demo_engine) (VString (js "bad"))
    (Some [(js "email", Some ValidateOption.empty); (js "toString", None);
           (js "7", None)])
    (@setValidatorHandler demo (fst demo_engine) (js "7") (@equalValidator demo)
       (snd demo_engine)) demo_world
  = (Return (Some [js "輸入資料不相等"; js "請輸入正確的電子郵件信箱格式";
                   js "[object Undefined]"]), demo_world).
Proof.
  rewrite (@validateField_messages demo (fst demo_engine) (VString (js "bad"))
             [(js "email", Some ValidateOption.empty); (js "toString", None);
              (js "7", None)]
             (@setValidatorHandler demo (fst demo_engine) (js "7")
                (@equalValidator demo) (snd demo_engine))
             (fun type _ =>
                if jsstring_eqb type (js "7") then RString (js "輸入資料不相等")
                else if jsstring_eqb type (js "email")
                then RString (js "請輸入正確的電子郵件信箱格式")
                else RString (js "[object Undefined]"))).
  - vm_compute. reflexivity.
  - intros type typeOption [H|[H|[H|[]]]]; injection H as <- <-.
    + exists (@emailValidator demo).
      split; [reflexivity | intros w; vm_compute; reflexivity].
    + eexists.
      split; [reflexivity | intros w; vm_compute; reflexivity].
    + exists (@equalValidator demo).
      split; [reflexivity | intros w; vm_compute; reflexivity].
Defined.

Lemma validate_fields_witness :
  (forall k,
     is_Some (lookup_key k
                [(js "email", Some [js "請輸入正確的電子郵件信箱格式"]); (js "pass", None)])
     <-> @sets_prototype demo k = false /\
         is_Some (lookup_key k (own_entries (model (fst demo_engine)))) /\
         exists rules, rules_in_force (fst demo_engine) None = Some rules /\
                       is_Some (@lookup_rule demo k rules))
  /\ (forall k l,
        lookup_key k
          [(js "email", Some [js "請輸入正確的電子郵件信箱格式"]); (js "pass", None)]
        = Some (Some l) -> l <> [] /\ Forall (fun s => s <> []) l)
  /\ (rules_in_force (fst demo_engine) None = None ->
      [(js "email", Some [js "請輸入正確的電子郵件信箱格式"]); (js "pass", None)] = []).
Proof.
  apply (@validate_fields demo (fst demo_engine) None (snd demo_engine)
           demo_world demo_world).
  vm_compute. reflexivity.
Defined.

Lemma validate_without_rules_witness :
  @validate demo (fst (@new_Validator demo demo_model None (@module_store demo)))
    None (snd (@new_Validator demo demo_model None (@module_store demo))) demo_world
  = (Return [],
     @mkWorld demo
       [Warning (js "utils[function validate]: The options property is all empty.")]
       tt)
  /\ exists errors,
       @validate demo
         (fst (@new_Validator demo (VObject true [(js "toString", VString (js "x"))])
                 (Some []) (@module_store demo)))
         None
         (snd (@new_Validator demo (VObject true [(js "toString", VString (js "x"))])
                 (Some []) (@module_store demo)))
         demo_world
       = (Return errors,
          @mkWorld demo
            [Warning (js "utils[function validate]: The options property is all empty.")]
            tt)
       /\ Forall (fun p => snd p = None /\ is_Some (@Object_prototype demo (fst p)))
            errors.
Proof.
  split.
  - rewrite (proj1 (@validate_without_rules demo
                      (fst (@new_Validator demo demo_model None (@module_store demo)))
                      None
                      (snd (@new_Validator demo demo_model None (@module_store demo)))
                      demo_world)).
    + vm_compute. reflexivity.
    + reflexivity.
  - destruct (proj2 (@validate_without_rules demo
                       (fst (@new_Validator demo
                               (VObject true [(js "toString", VString (js "x"))])
                               (Some []) (@module_store demo)))
                       None
                       (snd (@new_Validator demo
                               (VObject true [(js "toString", VString (js "x"))])
                               (Some []) (@module_store demo)))
                       demo_world) eq_refl) as (errors & Hrun & Hok & _).
    exists errors. split; [|exact Hok].
    rewrite Hrun. vm_compute. reflexivity.
Defined.

(** ** The readers of the stored errors *)

Section Readers.
Context {host : Host}.

Lemma filter_messages (items : list jsstring) :
  flat_map (fun p => match p with
                     | Some (c :: s) => [c :: s]
                     | _ => []
                     end) (map Some items)
  = List.filter nonempty items.
Proof.
  induction items as [|s items IH]; [reflexivity|].
  cbn [map flat_map List.filter]. rewrite IH. destruct s; reflexivity.
Qed.

Lemma errorsToArray_flat_map (this : Validator) (σ : store) :
  errorsToArray this σ
  = flat_map (fun p => entry_messages σ (snd p)) (errors_of σ this).
Proof.
  unfold errorsToArray. generalize (errors_of σ this). intros es.
  induction es as [|[k e] es IH]; [reflexivity|].
  cbn [flat_map snd]. rewrite List.flat_map_app. f_equal; [|exact IH].
  destruct e as [|a]; [reflexivity|].
  unfold entry_items, entry_messages.
  destruct (array_at σ a) as [items|]; [apply filter_messages | reflexivity].
Qed.

Lemma entry_messages_nonempty (σ : store) (e : entry) :
  Forall (fun s => s <> []) (entry_messages σ e).
Proof.
  destruct e as [|a]; [constructor|]. unfold entry_messages.
  destruct (array_at σ a) as [items|]; [apply filter_nonempty_all | constructor].
Qed.

(** X14: [errorsToArray] is the stored messages, field by field in the
    order of the mapping and in the order of each array, without the
    [null] entries and without the empty strings: no element of its
    result is empty. *)
Theorem errorsToArray_messages (this : Validator) (σ : store) :
  errorsToArray this σ
  = flat_map (fun p => entry_messages σ (snd p)) (errors_of σ this)
  /\ Forall (fun s => s <> []) (errorsToArray this σ).
Proof.
  split; [apply errorsToArray_flat_map|].
  rewrite errorsToArray_flat_map. apply List.Forall_flat_map.
  apply List.Forall_forall. intros p _. apply entry_messages_nonempty.
Qed.

(** X15: without a field name, [isValid] is true exactly when some field
    of the stored mapping holds an array with a non-empty message; an
    array of empty strings alone does not count. *)
Theorem isValid_some_message (this : Validator) (σ : store) :
  isValid this None σ = true <->
  exists k a items s,
    In (k, ERef a) (errors_of σ this) /\ array_at σ a = Some items /\
    In s items /\ s <> [].
Proof.
  unfold isValid. rewrite errorsToArray_flat_map. split.
  - intros H.
    destruct (flat_map _ _) as [|s l] eqn:E; [discriminate H|].
    assert (Hin : In s (flat_map (fun p => entry_messages σ (snd p)) (errors_of σ this)))
      by (rewrite E; left; reflexivity).
    apply in_flat_map in Hin. destruct Hin as ([k e] & Hp & Hs). cbn [snd] in Hs.
    destruct e as [|a]; [destruct Hs|]. unfold entry_messages in Hs.
    destruct (array_at σ a) as [items|] eqn:Ea; [|destruct Hs].
    apply List.filter_In in Hs. destruct Hs as [Hs Hne].
    exists k, a, items, s. repeat split; try assumption.
    intros ->. discriminate Hne.
  - intros (k & a & items & s & Hp & Ea & Hs & Hne).
    assert (Hin : In s (flat_map (fun p => entry_messages σ (snd p)) (errors_of σ this))).
    { apply in_flat_map. exists (k, ERef a). split; [exact Hp|].
      cbn [snd]. unfold entry_messages. rewrite Ea. apply List.filter_In.
      split; [exact Hs|]. destruct s; [congruence | reflexivity]. }
    destruct (flat_map _ _); [destruct Hin | reflexivity].
Qed.


(** X17: a registration writes the table and nothing else: in a store
    that has the table, the stored errors of every engine, its
    [errorsToArray] and its [isValid] are as before. *)
Theorem setValidatorHandler_keeps_errors (that this : Validator)
    (name : jsstring) (handler : ValidatorHandler) (σ : store) :
  (exists t, σ !! validatorHandler that = Some (CTable t)) ->
  mapping_value (setValidatorHandler that name handler σ) (errors this)
  = mapping_value σ (errors this)
  /\ errorsToArray this (setValidatorHandler that name handler σ)
     = errorsToArray this σ
  /\ forall field,
       isValid this field (setValidatorHandler that name handler σ)
       = isValid this field σ.
Proof.
  intros (t & Ht).
  assert (Hm : forall l, mapping_at (setValidatorHandler that name handler σ) l
                         = mapping_at σ l).
  { intros l. unfold mapping_at, setValidatorHandler, store in *.
    destruct (decide (validatorHandler that = l)) as [<-|Hne].
    - rewrite lookup_insert_eq, Ht. reflexivity.
    - rewrite lookup_insert_ne by exact Hne. reflexivity. }
  assert (Ha : forall l, array_at (setValidatorHandler that name handler σ) l
                         = array_at σ l).
  { intros l. unfold array_at, setValidatorHandler, store in *.
    destruct (decide (validatorHandler that = l)) as [<-|Hne].
    - rewrite lookup_insert_eq, Ht. reflexivity.
    - rewrite lookup_insert_ne by exact Hne. reflexivity. }
  apply readers_agree.
  - unfold errors_of. apply Hm.
  - apply List.Forall_forall. intros [k e] _. cbn [snd].
    destruct e as [|a]; [reflexivity|]. unfold entry_value. rewrite Ha. reflexivity.
Qed.

(** X18: the [errors] mapping is an object of the engine's own: a new
    engine gets a new, empty one, distinct from that of any engine in the
    store, and building it leaves the stored errors of that engine, its
    [errorsToArray] and its [isValid] as they were. *)
Theorem new_Validator_own_errors (a : Validator) (m : value)
    (o : option ValidatorValidOption) (σ : store) :
  mapping_closed σ (errors a) ->
  errors (fst (new_Validator m o σ)) <> errors a
  /\ errors_of (snd (new_Validator m o σ)) (fst (new_Validator m o σ)) = []
  /\ mapping_value (snd (new_Validator m o σ)) (errors a) = mapping_value σ (errors a)
  /\ errorsToArray a (snd (new_Validator m o σ)) = errorsToArray a σ
  /\ forall field, isValid a field (snd (new_Validator m o σ)) = isValid a field σ.
Proof.
  intros [(es & Hl) Hcl]. unfold store in *.
  assert (Hfresh : σ !! fresh (dom σ) = None) by (apply not_elem_of_dom, is_fresh).
  assert (Hne : fresh (dom σ) <> errors a).
  { intros E. rewrite E in Hfresh. rewrite Hfresh in Hl. discriminate Hl. }
  assert (Hsub : σ ⊆ <[fresh (dom σ) := CErrors []]> σ)
    by (apply insert_subseteq; exact Hfresh).
  split; [exact Hne|]. split; [apply new_Validator_errors_empty|].
  apply readers_agree.
  - unfold errors_of, mapping_at, new_Validator, store. cbn [snd].
    rewrite lookup_insert_ne by exact Hne. reflexivity.
  - apply List.Forall_forall. intros p Hp.
    apply (entry_value_weaken σ _ (snd p) Hsub).
    exact (proj1 (List.Forall_forall _ _) Hcl p Hp).
Qed.







End Readers.


Lemma setValidatorHandler_keeps_errors_witness :
  @mapping_value demo
    (@setValidatorHandler demo (fst written_engine) (js "same") (@equalValidator demo)
       (snd written_engine)) (errors (fst written_engine))
  = @mapping_value demo (snd written_engine) (errors (fst written_engine))
  /\ @errorsToArray demo (fst written_engine)
       (@setValidatorHandler demo (fst written_engine) (js "same")
          (@equalValidator demo) (snd written_engine))
     = @errorsToArray demo (fst written_engine) (snd written_engine)
  /\ forall field,
       @isValid demo (fst written_engine) field
         (@setValidatorHandler demo (fst written_engine) (js "same")
            (@equalValidator demo) (snd written_engine))
       = @isValid demo (fst written_engine) field (snd written_engine).
Proof.
  apply (@setValidatorHandler_keeps_errors demo (fst written_engine)
           (fst written_engine) (js "same") (@equalValidator demo)
           (snd written_engine)).
  eexists. reflexivity.
Defined.

Lemma new_Validator_own_errors_witness :
  errors (fst (@new_Validator demo VNull None (snd written_engine)))
  <> errors (fst written_engine)
  /\ @errors_of demo (snd (@new_Validator demo VNull None (snd written_engine)))
       (fst (@new_Validator demo VNull None (snd written_engine))) = []
  /\ @mapping_value demo (snd (@new_Validator demo VNull None (snd written_engine)))
       (errors (fst written_engine))
     = @mapping_value demo (snd written_engine) (errors (fst written_engine))
  /\ @errorsToArray demo (fst written_engine)
       (snd (@new_Validator demo VNull None (snd written_engine)))
     = @errorsToArray demo (fst written_engine) (snd written_engine)
  /\ forall field,
       @isValid demo (fst written_engine) field
         (snd (@new_Validator demo VNull None (snd written_engine)))
       = @isValid demo (fst written_engine) field (snd written_engine).
Proof.
  apply (@new_Validator_own_errors demo (fst written_engine) VNull None
           (snd written_engine)).
  split.
  - eexists. reflexivity.
  - repeat constructor; eexists; reflexivity.
Defined.

(** ** The equality validator *)

Section Equality.
Context {host : Host}.

(** X19: [equalValidator] neither throws nor touches the world, and
    compares strictly: it accepts a value only if it is a string and the
    very string of [option.equal]; with no option at all it accepts the
    empty string alone, and with an option that has no [equal] it accepts
    [undefined] alone. *)
Theorem equalValidator_accepts (value : value) (option : option ValidateOption.t)
    (w : world) :
  exists r,
    equalValidator value option w = (Return r, w)
    /\ (r = RNull <->
        match option with
        | None => value = VString []
        | Some o =>
          match ValidateOption.equal o with
          | Some s => value = VString s
          | None => value = VUndefined
          end
        end).
Proof.
  unfold equalValidator, ret.
  assert (Hs : forall a v,
            strict_equal_string a v = true <->
            match a with Some s => v = VString s | None => v = VUndefined end).
  { intros a v. destruct a as [s|], v; cbn [strict_equal_string];
      try (split; [discriminate | intros H; discriminate H]);
      try (split; reflexivity).
    unfold jsstring_eqb. rewrite bool_decide_eq_true. split; congruence. }
  eexists. split; [reflexivity|].
  destruct option as [o|]; cbn [default from_option id].
  - rewrite <- Hs. destruct (strict_equal_string _ value); cbn [negb];
      split; congruence.
  - change (ValidateOption.equal equal_optionDefault) with (Some ([] : jsstring)).
    rewrite <- (Hs (Some []) value).
    destruct (strict_equal_string _ value); cbn [negb]; split; congruence.
Qed.

End Equality.
